(** * pacer: a rate controlled reader or writer (virtual clock algorithm)

    Shallow embedding of [pkg/pacer/pacer.go] and the properties its
    specification states about it.

    Conventions of the embedding.
    - Go's [int] and [time.Duration] are 64-bit two's-complement integers:
      they are carried as [Z] and every arithmetic result is wrapped back
      into the 64-bit range ([wrap64]).  Integer division truncates toward
      zero and panics on a zero divisor.
    - A [time.Time] is an instant, carried as the number of nanoseconds
      since the zero instant (January 1, year 1, 00:00:00 UTC); its range
      (hundreds of billions of years) is taken as unbounded.  The wall
      clock is not stepped, so wall and monotonic readings agree.
    - Go statements run in a state-and-panic monad [Go] over a [World]
      holding the current wall time and the log of the durations handed to
      [time.Sleep].  [time.Sleep d] advances the wall time by exactly [d]
      when [d] is positive.
    - Objects mutated through a pointer ([*Pacer], the wrapped stream, the
      buffer of a read) are passed in and returned. *)

From Stdlib Require Import ZArith List Lia Bool String.
From Stdlib Require Import Init.Byte.
Import ListNotations.
Local Open Scope Z_scope.

(* ================================================================== *)
(** ** Machine integers *)

Module Int.

Definition min_int : Z := - 2 ^ 63.
Definition max_int : Z := 2 ^ 63 - 1.

(** Two's-complement wrap-around of a mathematical result. *)
Definition wrap64 (z : Z) : Z := (z + 2 ^ 63) mod 2 ^ 64 - 2 ^ 63.

Definition in_range (z : Z) : Prop := min_int <= z <= max_int.

(** [a * b] on [int]. *)
Definition mul (a b : Z) : Z := wrap64 (a * b).

(** [a / b] on [int] for [b <> 0]: truncated quotient (the only case that
    wraps is [min_int / -1]). *)
Definition quo (a b : Z) : Z := wrap64 (Z.quot a b).

End Int.

(* ================================================================== *)
(** ** The world and the monad of Go statements *)

Definition Time := Z.
Definition Duration := Z.

Record World := mkWorld {
  wall : Time;             (* what time.Now() reads *)
  sleeps : list Duration   (* arguments of time.Sleep, most recent first *)
}.

Inductive outcome (A : Type) : Type :=
| Returned (a : A) (w : World)
| Panicked.
Arguments Returned {A} a w.
Arguments Panicked {A}.

Definition Go (A : Type) : Type := World -> outcome A.

Definition ret {A} (a : A) : Go A := fun w => Returned a w.

Definition bind {A B} (m : Go A) (k : A -> Go B) : Go B :=
  fun w => match m w with
           | Returned a w' => k a w'
           | Panicked => Panicked
           end.

Definition panic {A} : Go A := fun _ => Panicked.

Declare Scope go_scope.
Delimit Scope go_scope with go.
Notation "x <- m ;; k" := (bind m (fun x => k))
  (at level 61, m at next level, right associativity) : go_scope.
Notation "m ;;; k" := (bind m (fun _ => k))
  (at level 61, right associativity) : go_scope.
Local Open Scope go_scope.

(** [a / b] as a statement: a zero divisor is a run-time panic. *)
Definition int_div (a b : Z) : Go Z :=
  if b =? 0 then panic else ret (Int.quo a b).

(* ================================================================== *)
(** ** Package time *)

Module time.

(** [time.Second], in nanoseconds. *)
Definition Second : Duration := 1000000000.

Definition maxDuration : Duration := Int.max_int.
Definition minDuration : Duration := Int.min_int.

Definition Now : Go Time := fun w => Returned (wall w) w.

Definition IsZero (t : Time) : bool := t =? 0.

Definition Add (t : Time) (d : Duration) : Time := t + d.

Definition After (t u : Time) : bool := u <? t.

(** [t.Sub(u)] saturates at the largest and smallest [Duration]. *)
Definition Sub (t u : Time) : Duration :=
  if maxDuration <? t - u then maxDuration
  else if t - u <? minDuration then minDuration
  else t - u.

(** The world once [time.Sleep(d)] has returned: time has passed only
    when [d] is positive.  Go promises a pause of at least [d]; the pause
    is taken to be exactly [d], the modelled clock under which the rate
    bound is stated.  The argument of every call is kept in [sleeps], so
    what the program asks for can be stated apart from what the clock
    does. *)
Definition slept (d : Duration) (w : World) : World :=
  {| wall := if 0 <? d then wall w + d else wall w;
     sleeps := d :: sleeps w |}.

Definition Sleep (d : Duration) : Go unit :=
  fun w => Returned tt (slept d w).

End time.

(* ================================================================== *)
(** ** Pacer *)

Record Pacer := mkPacer {
  bytesPerSecond : Z;
  clock : Time
}.

Definition set_clock (p : Pacer) (t : Time) : Pacer :=
  {| bytesPerSecond := bytesPerSecond p; clock := t |}.

(** The expression of line 31:
    [time.Duration((int(time.Second) * cc) / p.bytesPerSecond)]. *)
Definition delay_of (cc bps : Z) : Go Duration :=
  int_div (Int.mul time.Second cc) bps.

Definition pace (p : Pacer) (cc : Z) : Go Pacer :=
  now <- time.Now ;;
  let p := if time.IsZero (clock p) then set_clock p now else p in
  delay <- delay_of cc (bytesPerSecond p) ;;
  let p := set_clock p (time.Add (clock p) delay) in
  if time.After (clock p) now
  then time.Sleep (time.Sub (clock p) now) ;;; ret p
  else ret p.

(* ================================================================== *)
(** ** Wrapped streams *)

(** A Go [error] value; [nil] is [None] of [option error]. *)
Inductive error : Type :=
| EOF
| ErrOther (msg : string).

(** [io.Reader]: [Read(b)] may fill [b], returns a count and an error, and
    may change the reader and the world. *)
Class Reader (R : Type) : Type :=
  io_Read : R -> list byte -> Go (R * list byte * (Z * option error)).

(** [io.Writer]: [Write(b)] returns a count and an error. *)
Class Writer (W : Type) : Type :=
  io_Write : W -> list byte -> Go (W * (Z * option error)).

Record ReaderPacer (R : Type) := mkReaderPacer {
  rPacer : Pacer;
  reader : R
}.
Arguments mkReaderPacer {R} _ _.
Arguments rPacer {R} _.
Arguments reader {R} _.

Record WriterPacer (W : Type) := mkWriterPacer {
  wPacer : Pacer;
  writer : W
}.
Arguments mkWriterPacer {W} _ _.
Arguments wPacer {W} _.
Arguments writer {W} _.

(** The zero value of [Pacer]. *)
Definition zeroPacer : Pacer := {| bytesPerSecond := 0; clock := 0 |}.

Definition NewReaderPacer {R} (r : R) (rate : Z) : Go (ReaderPacer R) :=
  let rp := {| rPacer := zeroPacer; reader := r |} in
  let rp := {| rPacer := {| bytesPerSecond := rate; clock := clock (rPacer rp) |};
               reader := reader rp |} in
  ret rp.

Definition Read {R} `{Reader R} (p : ReaderPacer R) (b : list byte)
  : Go (ReaderPacer R * list byte * (Z * option error)) :=
  x <- io_Read (reader p) b ;;
  let '(r, b, (cc, err)) := x in
  let p := {| rPacer := rPacer p; reader := r |} in
  match err with
  | Some e => ret (p, b, (cc, Some e))
  | None =>
      q <- pace (rPacer p) cc ;;
      ret ({| rPacer := q; reader := reader p |}, b, (cc, None))
  end.

Definition NewWriterPacer {W} (w : W) (rate : Z) : Go (WriterPacer W) :=
  let wp := {| wPacer := zeroPacer; writer := w |} in
  let wp := {| wPacer := {| bytesPerSecond := rate; clock := clock (wPacer wp) |};
               writer := writer wp |} in
  ret wp.

Definition Write {W} `{Writer W} (p : WriterPacer W) (b : list byte)
  : Go (WriterPacer W * (Z * option error)) :=
  x <- io_Write (writer p) b ;;
  let '(w, (cc, err)) := x in
  let p := {| wPacer := wPacer p; writer := w |} in
  match err with
  | Some e => ret (p, (cc, Some e))
  | None =>
      q <- pace (wPacer p) cc ;;
      ret ({| wPacer := q; writer := writer p |}, (cc, None))
  end.

(* ================================================================== *)
(** ** Sessions: a caller using one wrapper repeatedly *)

(** One call of a session: the caller first spends [idle] nanoseconds on
    its own, then passes [buf]. *)
Record request := mkRequest {
  idle : nat;
  buf : list byte
}.

(** What the caller saw of one call: the returned count and error, and the
    wall time at which the call returned. *)
Record entry := mkEntry {
  count : Z;
  err : option error;
  finished : Time
}.

Definition pause (d : nat) : Go unit :=
  fun w => Returned tt {| wall := wall w + Z.of_nat d; sleeps := sleeps w |}.

Section Session.

Context {P : Type}.
Variable call : P -> list byte -> Go (P * (Z * option error)).

Fixpoint session (reqs : list request) (p : P) : Go (P * list entry) :=
  match reqs with
  | [] => ret (p, [])
  | q :: reqs =>
      pause (idle q) ;;;
      x <- call p (buf q) ;;
      let '(p, (cc, e)) := x in
      t <- time.Now ;;
      y <- session reqs p ;;
      let '(p, log) := y in
      ret (p, {| count := cc; err := e; finished := t |} :: log)
  end.

End Session.

(** The two wrappers as session calls (the caller of a session does not
    look at the bytes of a read). *)
Definition ReadCall {R} `{Reader R} (p : ReaderPacer R) (b : list byte)
  : Go (ReaderPacer R * (Z * option error)) :=
  x <- Read p b ;;
  let '(p, _, res) := x in ret (p, res).

Definition WriteCall {W} `{Writer W} (p : WriterPacer W) (b : list byte)
  : Go (WriterPacer W * (Z * option error)) :=
  Write p b.

(** Nanoseconds charged for a logged call at rate [rate]: the delay of its
    byte count when it succeeded, nothing when it returned an error. *)
Definition charge (rate : Z) (e : entry) : Z :=
  match err e with
  | None => time.Second * count e / rate
  | Some _ => 0
  end.

Definition charged (rate : Z) (log : list entry) : Z :=
  fold_right (fun e acc => charge rate e + acc) 0 log.

(** Bytes returned by the calls of a log. *)
Definition moved (log : list entry) : Z :=
  fold_right (fun e acc => count e + acc) 0 log.

(** A successful call whose byte count is non-negative and small enough
    for [time.Second * cc] to fit in an [int]. *)
Definition in_budget (e : entry) : Prop :=
  err e = None -> 0 <= count e /\ time.Second * count e <= Int.max_int.

(** A stream whose calls never move the wall time backwards. *)
Definition Reader_forward (R : Type) `{Reader R} : Prop :=
  forall r b w x w', io_Read r b w = Returned x w' -> wall w <= wall w'.

Definition Writer_forward (W : Type) `{Writer W} : Prop :=
  forall s b w x w', io_Write s b w = Returned x w' -> wall w <= wall w'.

(* ================================================================== *)
(** ** Test doubles *)

(** A scripted stream: each call takes the next response off the script,
    spends [took] nanoseconds and returns the scripted count and error; an
    exhausted script returns [0, EOF]. *)
Record response := mkResponse {
  took : nat;
  resp_n : Z;
  resp_err : option error
}.

Definition Scripted := list response.

Definition scripted_call (s : Scripted) : Go (Scripted * (Z * option error)) :=
  match s with
  | [] => ret ([], (0, Some EOF))
  | r :: s => pause (took r) ;;; ret (s, (resp_n r, resp_err r))
  end.

#[export] Instance Scripted_Reader : Reader Scripted :=
  fun s b => x <- scripted_call s ;; let '(s, res) := x in ret (s, b, res).

#[export] Instance Scripted_Writer : Writer Scripted :=
  fun s _ => scripted_call s.

(** A steady stream: every call moves [chunk] bytes at once, without
    error and without taking time. *)
Record Steady := mkSteady {
  chunk : Z
}.

#[export] Instance Steady_Reader : Reader Steady :=
  fun s b => ret (s, b, (chunk s, None)).

#[export] Instance Steady_Writer : Writer Steady :=
  fun s _ => ret (s, (chunk s, None)).

(* ================================================================== *)
(** ** Quantities used in the statements *)

(** The instant the virtual clock is advanced from: the wall time on the
    first use, the clock itself afterwards. *)
Definition clock_base (p : Pacer) (now : Time) : Time :=
  if time.IsZero (clock p) then now else clock p.

(** What pace leaves behind when the rate is not zero. *)
Definition paced_clock (p : Pacer) (cc : Z) (w : World) : Time :=
  clock_base p (wall w) + Int.quo (Int.mul time.Second cc) (bytesPerSecond p).

Definition paced_world (p : Pacer) (cc : Z) (w : World) : World :=
  if wall w <? paced_clock p cc w
  then time.slept (time.Sub (paced_clock p cc w) (wall w)) w
  else w.

(** What a session needs to know of a wrapper call: on an error the Pacer
    and the world are those the stream left; on success pace ran on the
    returned count.  [T] relates the world before the call to the world
    the stream left. *)
Definition paced_call {P : Type} (T : World -> World -> Prop)
    (pacer_of : P -> Pacer)
    (call : P -> list byte -> Go (P * (Z * option error))) : Prop :=
  forall p b w p' cc e w',
    call p b w = Returned (p', (cc, e)) w' ->
    exists w1, T w w1 /\
      match e with
      | Some _ => pacer_of p' = pacer_of p /\ w' = w1
      | None => pace (pacer_of p) cc w1 = Returned (pacer_of p') w'
      end.

Definition forward (w w1 : World) : Prop := wall w <= wall w1.

Definition anyhow (w w1 : World) : Prop := True.

(** A logged call that succeeded within the budget. *)
Definition paid (e : entry) : Prop :=
  err e = None /\ 0 <= count e /\ time.Second * count e <= Int.max_int.

(** The wall time at which the first call of a session starts. *)
Definition first_call_start (reqs : list request) (w : World) : Time :=
  match reqs with
  | [] => wall w
  | q :: _ => wall w + Z.of_nat (idle q)
  end.

(** The virtual clock is unset, or the wall time has reached it. *)
Definition settled (p : Pacer) (w : World) : Prop :=
  clock p = 0 \/ clock p <= wall w.

(** A stream call that never moves the wall time backwards and does not
    itself call [time.Sleep]. *)
Definition sleepless (w w1 : World) : Prop :=
  wall w <= wall w1 /\ sleeps w1 = sleeps w.

Definition Reader_sleepless (R : Type) `{Reader R} : Prop :=
  forall r b w x w', io_Read r b w = Returned x w' -> sleepless w w'.

Definition Writer_sleepless (W : Type) `{Writer W} : Prop :=
  forall s b w x w', io_Write s b w = Returned x w' -> sleepless w w'.

(* ================================================================== *)
(** ** The claims the code does not satisfy, as they are worded *)

(** C1 as stated: at the return of every call the elapsed time is at
    least the bytes moved so far divided by the rate. *)
Definition rate_bound_exact (rate : Z) (start : Time) (log : list entry) : Prop :=
  forall k e, nth_error log k = Some e ->
    time.Second * moved (firstn (S k) log) <= rate * (finished e - start).

(** C2 as stated: construction with this rate fails. *)
Definition construction_fails (rate : Z) : Prop :=
  (forall R (r : R) w, NewReaderPacer r rate w = Panicked) /\
  (forall W (s : W) w, NewWriterPacer s rate w = Panicked).

(** C4 as stated: whenever the clock ends at or behind the wall time, pace
    has not blocked and the clock is the previous clock plus the delay. *)
Definition keeps_previous_clock (p : Pacer) (cc : Z) (w : World) : Prop :=
  forall d p' w',
    delay_of cc (bytesPerSecond p) w = Returned d w ->
    pace p cc w = Returned p' w' ->
    clock p' <= wall w ->
    w' = w /\ clock p' = time.Add (clock p) d.

(** C5 as stated: the first transfer through a fresh wrapper returns in
    the world the stream left (nothing slept, no time passed). *)
Definition first_transfer_undelayed {R} `{Reader R}
    (r : R) (rate : Z) (b : list byte) (w : World) : Prop :=
  forall x w1,
    io_Read r b w = Returned x w1 ->
    exists y, (p <- NewReaderPacer r rate ;; Read p b) w = Returned y w1.

(** C6 as stated: pace(0) returns with the controller and the world as
    they were. *)
Definition zero_transfer_inert (p : Pacer) (w : World) : Prop :=
  pace p 0 w = Returned p w.

(** C7 as stated: a call of pace that returns leaves the clock at or after
    its previous value. *)
Definition clock_never_decreases (p : Pacer) (cc : Z) (w : World) : Prop :=
  forall p' w', pace p cc w = Returned p' w' -> clock p <= clock p'.

(** C9 as stated: whenever the wrapped Write succeeds with [cc] bytes,
    the wrapper returns [cc] and a nil error. *)
Definition success_is_returned {W} `{Writer W}
    (p : WriterPacer W) (b : list byte) (w : World) : Prop :=
  forall s' cc w1,
    io_Write (writer p) b w = Returned (s', (cc, None)) w1 ->
    exists p' w', Write p b w = Returned (p', (cc, None)) w'.

(* ================================================================== *)
(** ** Sample values *)

(** An instant of late 2026, in nanoseconds since the zero instant. *)
Definition this_instant : Time := 63929001600000000000.

Definition quiet (t : Time) : World := {| wall := t; sleeps := [] |}.

Definition three_writes : list entry :=
  [ mkEntry 250 None (this_instant + 500000000);
    mkEntry 250 None (this_instant + 1000000000);
    mkEntry 250 None (this_instant + 1500000000) ].

Definition three_single_bytes : list entry :=
  [ mkEntry 1 None (this_instant + 333333333);
    mkEntry 1 None (this_instant + 666666666);
    mkEntry 1 None (this_instant + 999999999) ].

(* ================================================================== *)
(** ** Arithmetic of the delay *)

Lemma wrap64_small z : Int.in_range z -> Int.wrap64 z = z.
Proof.
  unfold Int.in_range, Int.min_int, Int.max_int, Int.wrap64. intros Hz.
  rewrite Z.mod_small; lia.
Qed.

Lemma wrap64_in_range z : Int.in_range (Int.wrap64 z).
Proof.
  unfold Int.in_range, Int.min_int, Int.max_int, Int.wrap64.
  pose proof (Z.mod_pos_bound (z + 2 ^ 63) (2 ^ 64) ltac:(lia)). lia.
Qed.

(** Within the budget the product does not wrap and the quotient is the
    floor of the exact ratio. *)
Lemma delay_in_budget cc rate :
  0 <= cc -> 0 < rate -> time.Second * cc <= Int.max_int ->
  Int.mul time.Second cc = time.Second * cc /\
  Int.quo (Int.mul time.Second cc) rate = time.Second * cc / rate /\
  0 <= time.Second * cc / rate <= Int.max_int.
Proof.
  intros Hcc Hrate Hfit.
  assert (Hpos : 0 <= time.Second * cc) by (unfold time.Second; lia).
  assert (Hmul : Int.mul time.Second cc = time.Second * cc).
  { unfold Int.mul. apply wrap64_small.
    unfold Int.in_range, Int.min_int. split; [lia | exact Hfit]. }
  assert (Hq : 0 <= time.Second * cc / rate <= Int.max_int).
  { split.
    - apply Z.div_pos; lia.
    - apply Z.le_trans with (time.Second * cc); [| exact Hfit].
      apply Z.div_le_upper_bound; nia. }
  repeat split; try tauto.
  unfold Int.quo. rewrite Hmul, Z.quot_div_nonneg by lia.
  apply wrap64_small. unfold Int.in_range, Int.min_int. lia.
Qed.

(* ================================================================== *)
(** ** What one call of pace does *)

Lemma pace_panics p cc w : bytesPerSecond p = 0 -> pace p cc w = Panicked.
Proof.
  intros H0. unfold pace, bind, time.Now, delay_of, int_div.
  assert (E : bytesPerSecond
                (if time.IsZero (clock p) then set_clock p (wall w) else p) = 0)
    by (destruct (time.IsZero (clock p)); simpl; exact H0).
  rewrite E. reflexivity.
Qed.

Lemma pace_returns p cc w :
  bytesPerSecond p <> 0 ->
  let c := clock_base p (wall w)
           + Int.quo (Int.mul time.Second cc) (bytesPerSecond p) in
  pace p cc w =
  Returned (set_clock p c)
           (if wall w <? c then time.slept (time.Sub c (wall w)) w else w).
Proof.
  intros Hne c. subst c. unfold pace, bind, time.Now, delay_of, int_div, clock_base.
  destruct (time.IsZero (clock p)); simpl;
    (destruct (bytesPerSecond p =? 0) eqn:E; [apply Z.eqb_eq in E; contradiction |]);
    unfold ret, time.After, time.Add, time.Sleep, set_clock; simpl;
    match goal with |- context [?a <? ?b] => destruct (a <? b) end; reflexivity.
Qed.

Lemma Sub_exact c now :
  now < c -> c - now <= Int.max_int -> time.Sub c now = c - now.
Proof.
  intros Hlt Hle. unfold time.Sub, time.maxDuration, time.minDuration.
  destruct (Int.max_int <? c - now) eqn:E1; [apply Z.ltb_lt in E1; lia |].
  destruct (c - now <? Int.min_int) eqn:E2; [| reflexivity].
  apply Z.ltb_lt in E2. unfold Int.min_int in E2. lia.
Qed.

Lemma delay_of_returns cc rate w d :
  delay_of cc rate w = Returned d w ->
  rate <> 0 /\ d = Int.quo (Int.mul time.Second cc) rate.
Proof.
  unfold delay_of, int_div. destruct (rate =? 0) eqn:E.
  - discriminate.
  - apply Z.eqb_neq in E. unfold ret. intros H. inversion H. auto.
Qed.

Lemma delay_of_nonzero cc rate w :
  rate <> 0 ->
  delay_of cc rate w = Returned (Int.quo (Int.mul time.Second cc) rate) w.
Proof.
  intros Hne. unfold delay_of, int_div.
  destruct (rate =? 0) eqn:E; [apply Z.eqb_eq in E; contradiction | reflexivity].
Qed.

Lemma set_clock_same p : set_clock p (clock p) = p.
Proof. destruct p; reflexivity. Qed.

(* ================================================================== *)
(** ** Claims about pace *)

(** C8.  For a byte count [cc >= 0] and a rate [> 0] with
    [time.Second * cc] representable in an [int], the product computed by
    pace does not wrap, the delay is [floor (cc * 10^9 / rate)]
    nanoseconds, it is itself a valid [Duration], it is within one
    nanosecond of the exact ratio, and pace advances the virtual clock by
    exactly that delay. *)
Theorem delay_is_floor (p : Pacer) (cc : Z) (w : World) :
  0 <= cc -> 0 < bytesPerSecond p -> time.Second * cc <= Int.max_int ->
  let d := time.Second * cc / bytesPerSecond p in
  Int.mul time.Second cc = time.Second * cc /\
  delay_of cc (bytesPerSecond p) w = Returned d w /\
  0 <= d <= Int.max_int /\
  bytesPerSecond p * d <= time.Second * cc < bytesPerSecond p * (d + 1) /\
  exists w', pace p cc w
             = Returned (set_clock p (time.Add (clock_base p (wall w)) d)) w'.
Proof.
  intros Hcc Hrate Hfit d.
  destruct (delay_in_budget cc (bytesPerSecond p) Hcc Hrate Hfit) as (Hmul & Hquo & Hd).
  split; [exact Hmul |].
  split; [rewrite delay_of_nonzero by lia; now rewrite Hquo |].
  split; [exact Hd |].
  split.
  - subst d. split.
    + apply Z.mul_div_le; lia.
    + pose proof (Z.mod_pos_bound (time.Second * cc) (bytesPerSecond p) Hrate).
      pose proof (Z.div_mod (time.Second * cc) (bytesPerSecond p) ltac:(lia)). lia.
  - rewrite pace_returns by lia. rewrite Hquo. eexists. reflexivity.
Qed.

(** C6 (as amended).  On a controller with a non-zero rate whose virtual
    clock is not ahead of the wall time, pace(0) computes a delay of 0 and
    does not block; an initialised virtual clock keeps its value, an unset
    one is set to the current wall time. *)
Theorem zero_bytes_pace (p : Pacer) (w : World) :
  bytesPerSecond p <> 0 -> clock p <= wall w ->
  delay_of 0 (bytesPerSecond p) w = Returned 0 w /\
  pace p 0 w = Returned (set_clock p (clock_base p (wall w))) w /\
  (clock p <> 0 -> set_clock p (clock_base p (wall w)) = p).
Proof.
  intros Hne Hle.
  assert (Hq : Int.quo (Int.mul time.Second 0) (bytesPerSecond p) = 0).
  { unfold Int.quo, Int.mul. rewrite Z.mul_0_r.
    change (Int.wrap64 0) with 0. rewrite Z.quot_0_l by exact Hne. reflexivity. }
  split; [rewrite delay_of_nonzero by exact Hne; now rewrite Hq |].
  split.
  - rewrite pace_returns by exact Hne. rewrite Hq, Z.add_0_r.
    assert (Hb : clock_base p (wall w) <= wall w).
    { unfold clock_base. destruct (time.IsZero (clock p)); lia. }
    destruct (wall w <? clock_base p (wall w)) eqn:E;
      [apply Z.ltb_lt in E; lia | reflexivity].
  - intros Hc. unfold clock_base, time.IsZero.
    destruct (clock p =? 0) eqn:E; [apply Z.eqb_eq in E; contradiction |].
    apply set_clock_same.
Qed.

(** C4 (as amended).  When the virtual clock, after the computed delay has
    been added, is at or behind the current wall time, pace does not block
    and does not move the clock up to the wall time: the clock is left at
    its base plus the delay, where the base is the previous clock, or the
    current wall time on the first use (unset clock). *)
Theorem slow_caller_keeps_clock (p : Pacer) (cc : Z) (w : World) (d : Duration) :
  delay_of cc (bytesPerSecond p) w = Returned d w ->
  time.Add (clock_base p (wall w)) d <= wall w ->
  pace p cc w = Returned (set_clock p (time.Add (clock_base p (wall w)) d)) w.
Proof.
  intros Hd Hle. apply delay_of_returns in Hd. destruct Hd as [Hne ->].
  rewrite pace_returns by exact Hne. unfold time.Add in *.
  match goal with |- context [?a <? ?b] => destruct (a <? b) eqn:E end;
    [apply Z.ltb_lt in E; lia | reflexivity].
Qed.

(** C7 (as amended).  With a rate [> 0], a byte count [cc >= 0] for which
    [time.Second * cc] fits in an [int], and a wall clock not before the
    zero instant, pace returns and leaves the virtual clock at a value
    greater than or equal to its value before the call; the rate is
    unchanged, so this holds along every sequence of such calls. *)
Theorem clock_monotone_in_budget (p : Pacer) (cc : Z) (w : World) :
  0 < bytesPerSecond p -> 0 <= cc -> time.Second * cc <= Int.max_int ->
  0 <= wall w ->
  exists p' w', pace p cc w = Returned p' w' /\
                clock p <= clock p' /\
                bytesPerSecond p' = bytesPerSecond p /\
                wall w <= wall w'.
Proof.
  intros Hrate Hcc Hfit Hnow.
  destruct (delay_in_budget cc (bytesPerSecond p) Hcc Hrate Hfit) as (_ & Hquo & Hd).
  rewrite pace_returns by lia. rewrite Hquo.
  do 2 eexists. split; [reflexivity |].
  unfold set_clock; cbn [clock bytesPerSecond].
  split; [| split; [reflexivity |]].
  - unfold clock_base, time.IsZero.
    destruct (clock p =? 0) eqn:E; [apply Z.eqb_eq in E |]; lia.
  - match goal with |- context [?a <? ?b] => destruct (a <? b) end;
      [| apply Z.le_refl].
    unfold time.slept; cbn [wall].
    destruct (0 <? time.Sub _ _) eqn:E; [apply Z.ltb_lt in E |]; lia.
Qed.

(* ================================================================== *)
(** ** Claims about the constructors and about one call of a wrapper *)

(** C2 (as amended).  The constructors validate nothing: for every rate,
    positive or not, they return a wrapper holding that rate and an unset
    virtual clock.  With rate 0 the failure comes at first use: pace
    panics on the division as soon as a transfer succeeds. *)
Theorem constructors_accept_any_rate :
  (forall R (r : R) (rate : Z) (w : World),
      NewReaderPacer r rate w
      = Returned {| rPacer := {| bytesPerSecond := rate; clock := 0 |};
                    reader := r |} w) /\
  (forall W (s : W) (rate : Z) (w : World),
      NewWriterPacer s rate w
      = Returned {| wPacer := {| bytesPerSecond := rate; clock := 0 |};
                    writer := s |} w) /\
  (forall (c : Time) (cc : Z) (w : World),
      pace {| bytesPerSecond := 0; clock := c |} cc w = Panicked).
Proof.
  repeat split. intros c cc w. apply pace_panics. reflexivity.
Qed.

(** C3.  When the wrapped stream returns a non-nil error (end of stream
    included), Read and Write return exactly its count and its error; the
    Pacer is the one the wrapper had before the call and the world is the
    one the stream left: nothing was slept and no time has passed. *)
Theorem error_passes_through_unpaced :
  (forall R (HR : Reader R) (p : ReaderPacer R) b w r' b' cc e w1,
      io_Read (reader p) b w = Returned (r', b', (cc, Some e)) w1 ->
      Read p b w
      = Returned ({| rPacer := rPacer p; reader := r' |}, b', (cc, Some e)) w1) /\
  (forall W (HW : Writer W) (p : WriterPacer W) b w s' cc e w1,
      io_Write (writer p) b w = Returned (s', (cc, Some e)) w1 ->
      Write p b w
      = Returned ({| wPacer := wPacer p; writer := s' |}, (cc, Some e)) w1).
Proof.
  split; intros; unfold Read, Write, bind; rewrite H; reflexivity.
Qed.

(** C9 (as amended).  When the wrapped Read or Write succeeds with [cc]
    bytes, the wrapper runs pace on exactly [cc] (whatever the length of
    the buffer) in the world the stream left.  On a wrapper whose rate is
    not 0 pace returns and the wrapper then returns [cc] and a nil error,
    the virtual clock advanced by the delay of [cc]; on a wrapper whose
    rate is 0 pace panics and the wrapper does not return. *)
Theorem success_paces_returned_count :
  (forall R (HR : Reader R) (p : ReaderPacer R) b w r' b' cc w1,
      io_Read (reader p) b w = Returned (r', b', (cc, None)) w1 ->
      Read p b w
      = (q <- pace (rPacer p) cc ;;
         ret ({| rPacer := q; reader := r' |}, b', (cc, None))) w1 /\
      (bytesPerSecond (rPacer p) <> 0 ->
       Read p b w
       = Returned ({| rPacer := set_clock (rPacer p) (paced_clock (rPacer p) cc w1);
                      reader := r' |}, b', (cc, None))
                  (paced_world (rPacer p) cc w1)) /\
      (bytesPerSecond (rPacer p) = 0 -> Read p b w = Panicked)) /\
  (forall W (HW : Writer W) (p : WriterPacer W) b w s' cc w1,
      io_Write (writer p) b w = Returned (s', (cc, None)) w1 ->
      Write p b w
      = (q <- pace (wPacer p) cc ;;
         ret ({| wPacer := q; writer := s' |}, (cc, None))) w1 /\
      (bytesPerSecond (wPacer p) <> 0 ->
       Write p b w
       = Returned ({| wPacer := set_clock (wPacer p) (paced_clock (wPacer p) cc w1);
                      writer := s' |}, (cc, None))
                  (paced_world (wPacer p) cc w1)) /\
      (bytesPerSecond (wPacer p) = 0 -> Write p b w = Panicked)).
Proof.
  split; intros until w1; intros Hio.
  - assert (E : Read p b w
                = (q <- pace (rPacer p) cc ;;
                   ret ({| rPacer := q; reader := r' |}, b', (cc, None))) w1)
      by (unfold Read, bind at 1; rewrite Hio; reflexivity).
    split; [exact E |]. rewrite E. unfold bind. split; intros Hr.
    + rewrite pace_returns by exact Hr. reflexivity.
    + rewrite pace_panics by exact Hr. reflexivity.
  - assert (E : Write p b w
                = (q <- pace (wPacer p) cc ;;
                   ret ({| wPacer := q; writer := s' |}, (cc, None))) w1)
      by (unfold Write, bind at 1; rewrite Hio; reflexivity).
    split; [exact E |]. rewrite E. unfold bind. split; intros Hr.
    + rewrite pace_returns by exact Hr. reflexivity.
    + rewrite pace_panics by exact Hr. reflexivity.
Qed.

(** The first pace of a fresh controller, within the budget. *)
Lemma pace_fresh rate cc w :
  0 < rate -> 0 <= cc -> time.Second * cc <= Int.max_int ->
  let d := time.Second * cc / rate in
  pace {| bytesPerSecond := rate; clock := 0 |} cc w
  = Returned {| bytesPerSecond := rate; clock := wall w + d |}
             (if 0 <? d then time.slept d w else w).
Proof.
  intros Hrate Hcc Hfit d.
  destruct (delay_in_budget cc rate Hcc Hrate Hfit) as (_ & Hquo & Hd).
  rewrite pace_returns by (simpl; lia).
  unfold clock_base, set_clock; cbn [clock bytesPerSecond time.IsZero Z.eqb].
  rewrite Hquo. fold d in Hd |- *.
  destruct (0 <? d) eqn:E.
  - apply Z.ltb_lt in E.
    replace (wall w <? wall w + d) with true by (symmetry; apply Z.ltb_lt; lia).
    rewrite Sub_exact by lia. replace (wall w + d - wall w) with d by lia.
    reflexivity.
  - apply Z.ltb_ge in E.
    replace (wall w <? wall w + d) with false by (symmetry; apply Z.ltb_ge; lia).
    reflexivity.
Qed.

(** C5 (as amended).  On a freshly constructed wrapper with a rate [> 0]
    the first successful transfer of [cc] bytes (within the budget) is
    charged its own delay and nothing more: the wrapper sleeps exactly
    [floor (cc * 10^9 / rate)] nanoseconds after the stream has returned,
    and the virtual clock is set to the wall time at which it returns. *)
Theorem first_transfer_charged_own_delay :
  (forall R (HR : Reader R) (r : R) rate b w r' b' cc w1,
      0 < rate -> 0 <= cc -> time.Second * cc <= Int.max_int ->
      io_Read r b w = Returned (r', b', (cc, None)) w1 ->
      let d := time.Second * cc / rate in
      (p <- NewReaderPacer r rate ;; Read p b) w
      = Returned ({| rPacer := {| bytesPerSecond := rate; clock := wall w1 + d |};
                     reader := r' |}, b', (cc, None))
                 (if 0 <? d then time.slept d w1 else w1)) /\
  (forall W (HW : Writer W) (s : W) rate b w s' cc w1,
      0 < rate -> 0 <= cc -> time.Second * cc <= Int.max_int ->
      io_Write s b w = Returned (s', (cc, None)) w1 ->
      let d := time.Second * cc / rate in
      (p <- NewWriterPacer s rate ;; Write p b) w
      = Returned ({| wPacer := {| bytesPerSecond := rate; clock := wall w1 + d |};
                     writer := s' |}, (cc, None))
                 (if 0 <? d then time.slept d w1 else w1)).
Proof.
  split; intros until w1; intros Hrate Hcc Hfit Hio d.
  - unfold bind at 1, NewReaderPacer, ret, Read, bind at 1.
    cbn [reader rPacer clock zeroPacer]. rewrite Hio. unfold bind.
    rewrite (pace_fresh rate cc w1 Hrate Hcc Hfit). reflexivity.
  - unfold bind at 1, NewWriterPacer, ret, Write, bind at 1.
    cbn [writer wPacer clock zeroPacer]. rewrite Hio. unfold bind.
    rewrite (pace_fresh rate cc w1 Hrate Hcc Hfit). reflexivity.
Qed.

(* ================================================================== *)
(** ** Sessions *)

Lemma ReadCall_paced R `{Reader R} (T : World -> World -> Prop) :
  (forall r b w x w1, io_Read r b w = Returned x w1 -> T w w1) ->
  paced_call T rPacer (ReadCall (R := R)).
Proof.
  intros HT p b w p' cc e w' Hcall.
  unfold ReadCall, Read, bind in Hcall.
  destruct (io_Read (reader p) b w) as [[[r1 b1] [n1 e1]] w1 |] eqn:Hio;
    [| discriminate].
  exists w1. split; [eapply HT; exact Hio |].
  destruct e1 as [e1 |].
  - unfold ret in Hcall. inversion Hcall; subst. split; reflexivity.
  - cbn [rPacer reader] in Hcall.
    destruct (pace (rPacer p) n1 w1) as [q w2 |] eqn:Hp; [| discriminate].
    unfold ret in Hcall. inversion Hcall; subst. exact Hp.
Qed.

Lemma WriteCall_paced W `{Writer W} (T : World -> World -> Prop) :
  (forall s b w x w1, io_Write s b w = Returned x w1 -> T w w1) ->
  paced_call T wPacer (WriteCall (W := W)).
Proof.
  intros HT p b w p' cc e w' Hcall.
  unfold WriteCall, Write, bind in Hcall.
  destruct (io_Write (writer p) b w) as [[s1 [n1 e1]] w1 |] eqn:Hio;
    [| discriminate].
  exists w1. split; [eapply HT; exact Hio |].
  destruct e1 as [e1 |].
  - unfold ret in Hcall. inversion Hcall; subst. split; reflexivity.
  - cbn [wPacer writer] in Hcall.
    destruct (pace (wPacer p) n1 w1) as [q w2 |] eqn:Hp; [| discriminate].
    unfold ret in Hcall. inversion Hcall; subst. exact Hp.
Qed.

(** One pace within the budget, from a state whose clock is unset or lies
    between [base] and the wall time: afterwards the clock has passed
    [base] plus the delay and the wall time has caught up with the clock. *)
Lemma pace_step_budget p cc w p' w' base :
  0 < bytesPerSecond p -> 0 <= cc -> time.Second * cc <= Int.max_int ->
  clock p = 0 \/ base <= clock p <= wall w ->
  base <= wall w ->
  pace p cc w = Returned p' w' ->
  bytesPerSecond p' = bytesPerSecond p /\
  base + time.Second * cc / bytesPerSecond p <= clock p' <= wall w'.
Proof.
  intros Hrate Hcc Hfit Hinv Hbase Hp.
  destruct (delay_in_budget cc (bytesPerSecond p) Hcc Hrate Hfit) as (_ & Hquo & Hd).
  rewrite pace_returns in Hp by lia. rewrite Hquo in Hp.
  set (d := time.Second * cc / bytesPerSecond p) in *.
  assert (Hcb : base <= clock_base p (wall w) <= wall w).
  { unfold clock_base, time.IsZero.
    destruct (clock p =? 0) eqn:E; [lia |]. apply Z.eqb_neq in E. lia. }
  set (cb := clock_base p (wall w)) in *.
  inversion Hp; subst p' w'; clear Hp.
  unfold set_clock; cbn [clock bytesPerSecond]. split; [reflexivity |].
  destruct (wall w <? cb + d) eqn:E.
  - apply Z.ltb_lt in E. rewrite Sub_exact by lia.
    unfold time.slept; cbn [wall].
    replace (0 <? cb + d - wall w) with true by (symmetry; apply Z.ltb_lt; lia).
    lia.
  - apply Z.ltb_ge in E. lia.
Qed.

(** One pace within the budget on an initialised clock: the clock moves by
    exactly the delay. *)
Lemma pace_step_clock p cc w p' w' :
  0 < bytesPerSecond p -> 0 <= cc -> time.Second * cc <= Int.max_int ->
  0 < clock p ->
  pace p cc w = Returned p' w' ->
  bytesPerSecond p' = bytesPerSecond p /\
  clock p' = clock p + time.Second * cc / bytesPerSecond p.
Proof.
  intros Hrate Hcc Hfit Hc Hp.
  destruct (delay_in_budget cc (bytesPerSecond p) Hcc Hrate Hfit) as (_ & Hquo & Hd).
  rewrite pace_returns in Hp by lia. rewrite Hquo in Hp.
  inversion Hp; subst p' w'; clear Hp.
  unfold set_clock, clock_base, time.IsZero; cbn [clock bytesPerSecond].
  destruct (clock p =? 0) eqn:E; [apply Z.eqb_eq in E; lia |]. auto.
Qed.

Lemma session_cons {P} (call : P -> list byte -> Go (P * (Z * option error)))
    q reqs p w p' log w' :
  session call (q :: reqs) p w = Returned (p', log) w' ->
  exists p1 cc e w1 log1,
    call p (buf q) {| wall := wall w + Z.of_nat (idle q); sleeps := sleeps w |}
    = Returned (p1, (cc, e)) w1 /\
    session call reqs p1 w1 = Returned (p', log1) w' /\
    log = {| count := cc; err := e; finished := wall w1 |} :: log1.
Proof.
  cbn [session]. unfold bind at 1, pause. unfold bind at 1.
  destruct (call p (buf q) _) as [[p1 [cc e]] w1 |] eqn:Hc; [| discriminate].
  unfold bind at 1, time.Now. unfold bind at 1.
  destruct (session call reqs p1 w1) as [[p2 log1] w2 |] eqn:Hs; [| discriminate].
  unfold ret. intros Hr. inversion Hr; subst.
  exists p1, cc, e, w1, log1. auto.
Qed.

Lemma charged_cons rate e log :
  charged rate (e :: log) = charge rate e + charged rate log.
Proof. reflexivity. Qed.

Section SessionFacts.

Context {P : Type}.
Variable pacer_of : P -> Pacer.
Variable call : P -> list byte -> Go (P * (Z * option error)).
Variable rate : Z.
Hypothesis rate_pos : 0 < rate.

Lemma session_bound :
  paced_call forward pacer_of call ->
  forall reqs p w p' log w' base,
    bytesPerSecond (pacer_of p) = rate ->
    clock (pacer_of p) = 0 \/ base <= clock (pacer_of p) <= wall w ->
    base <= wall w ->
    session call reqs p w = Returned (p', log) w' ->
    Forall in_budget log ->
    forall k e, nth_error log k = Some e ->
      base + charged rate (firstn (S k) log) <= finished e.
Proof.
  intros Hcall. induction reqs as [| q reqs IH];
    intros p w p' log w' base Hrate Hinv Hbase Hs Hlog k e Hk.
  - cbn in Hs. unfold ret in Hs. inversion Hs as [[Hp' Hlog' Hw']].
    rewrite <- Hlog' in Hk. destruct k; discriminate.
  - apply session_cons in Hs.
    destruct Hs as (p1 & cc & er & w1 & log1 & Hc & Hs & ->).
    apply Hcall in Hc. destruct Hc as (w0 & Hfw & Hc).
    unfold forward in Hfw; cbn [wall] in Hfw.
    apply Forall_cons_iff in Hlog. destruct Hlog as [Hx Hl].
    assert (Hstep : bytesPerSecond (pacer_of p1) = rate /\
                    (clock (pacer_of p1) = 0 \/
                     base + charge rate (mkEntry cc er (wall w1))
                     <= clock (pacer_of p1) <= wall w1) /\
                    base + charge rate (mkEntry cc er (wall w1)) <= wall w1).
    { unfold charge; cbn [err count]. destruct er as [er |].
      - destruct Hc as [Hpc ->]. rewrite Hpc.
        split; [exact Hrate |]. split; [| lia].
        destruct Hinv as [Hz | Hb]; [left; exact Hz | right; lia].
      - destruct (Hx eq_refl) as [Hcc Hfit]. cbn [count] in Hcc, Hfit.
        assert (Hrp : 0 < bytesPerSecond (pacer_of p)) by lia.
        assert (Hinv0 : clock (pacer_of p) = 0 \/
                        base <= clock (pacer_of p) <= wall w0)
          by (destruct Hinv; [left; assumption | right; lia]).
        assert (Hbase0 : base <= wall w0) by lia.
        destruct (pace_step_budget _ _ _ _ _ base Hrp Hcc Hfit Hinv0 Hbase0 Hc)
          as (Hr & Hclk).
        rewrite Hrate in Hr, Hclk. split; [exact Hr |]. split; [right |]; lia. }
    destruct Hstep as (Hrate1 & Hinv1 & Hbase1).
    destruct k as [| k].
    + cbn in Hk. inversion Hk as [He]. cbn [firstn finished].
      rewrite charged_cons. cbn [charged fold_right]. lia.
    + cbn [nth_error] in Hk.
      pose proof (IH _ _ _ _ _ _ Hrate1 Hinv1 Hbase1 Hs Hl k e Hk) as Hk'.
      change (firstn (S (S k)) (mkEntry cc er (wall w1) :: log1))
        with (mkEntry cc er (wall w1) :: firstn (S k) log1).
      rewrite charged_cons. lia.
Qed.

Lemma session_clock :
  paced_call anyhow pacer_of call ->
  forall reqs p w p' log w',
    bytesPerSecond (pacer_of p) = rate ->
    0 < clock (pacer_of p) ->
    session call reqs p w = Returned (p', log) w' ->
    Forall in_budget log ->
    clock (pacer_of p') = clock (pacer_of p) + charged rate log.
Proof.
  intros Hcall. induction reqs as [| q reqs IH];
    intros p w p' log w' Hrate Hclk Hs Hlog.
  - cbn in Hs. unfold ret in Hs. inversion Hs as [[Hp' Hlog' Hw']]. cbn. lia.
  - apply session_cons in Hs.
    destruct Hs as (p1 & cc & er & w1 & log1 & Hc & Hs & ->).
    apply Hcall in Hc. destruct Hc as (w0 & _ & Hc).
    apply Forall_cons_iff in Hlog. destruct Hlog as [Hx Hl].
    rewrite charged_cons. unfold charge at 1; cbn [err count].
    destruct er as [er |].
    + destruct Hc as [Hpc _].
      rewrite (IH p1 w1 p' log1 w') by (rewrite ?Hpc; assumption).
      rewrite Hpc. lia.
    + destruct (Hx eq_refl) as [Hcc Hfit]. cbn [count] in Hcc, Hfit.
      assert (Hrp : 0 < bytesPerSecond (pacer_of p)) by lia.
      destruct (pace_step_clock _ _ _ _ _ Hrp Hcc Hfit Hclk Hc) as (Hr & Hc1).
      assert (0 <= time.Second * cc / bytesPerSecond (pacer_of p))
        by (apply Z.div_pos; unfold time.Second; lia).
      rewrite (IH p1 w1 p' log1 w') by (try assumption; lia).
      rewrite Hc1, Hrate. lia.
Qed.

End SessionFacts.

Lemma paid_in_budget log : Forall paid log -> Forall in_budget log.
Proof.
  apply Forall_impl. intros e (_ & Hc & Hf) _. split; assumption.
Qed.

Lemma Forall_firstn {A} (Q : A -> Prop) n (l : list A) :
  Forall Q l -> Forall Q (firstn n l).
Proof.
  intros Hl. revert n. induction Hl as [| x l Hx Hl IH]; intros [| n]; cbn;
    constructor; auto.
Qed.

(** Each floor loses less than a nanosecond. *)
Lemma moved_le_charged rate log :
  0 < rate -> Forall paid log ->
  time.Second * moved log <= rate * (charged rate log + Z.of_nat (List.length log)).
Proof.
  intros Hrate Hlog. induction Hlog as [| e l (He & Hc & Hf) Hl IH].
  - cbn. lia.
  - rewrite charged_cons. unfold moved in *. cbn [fold_right List.length].
    unfold charge. rewrite He.
    pose proof (Z.div_mod (time.Second * count e) rate ltac:(lia)).
    pose proof (Z.mod_pos_bound (time.Second * count e) rate Hrate).
    rewrite Nat2Z.inj_succ. nia.
Qed.

(** The caller's idle time before the first call can be counted as
    already past. *)
Lemma session_shift {P} (call : P -> list byte -> Go (P * (Z * option error)))
    q reqs p w :
  session call (q :: reqs) p w
  = session call ({| idle := 0; buf := buf q |} :: reqs) p
      {| wall := wall w + Z.of_nat (idle q); sleeps := sleeps w |}.
Proof.
  cbn [session]. unfold bind at 1, pause. symmetry. unfold bind at 1.
  cbn [wall sleeps idle buf Z.of_nat]. rewrite Z.add_0_r. reflexivity.
Qed.

Section RateBound.

Context {P : Type}.
Variable pacer_of : P -> Pacer.
Variable call : P -> list byte -> Go (P * (Z * option error)).
Variable rate : Z.
Hypothesis rate_pos : 0 < rate.
Hypothesis call_paced : paced_call forward pacer_of call.

Lemma session_rate_bound reqs p w p' log w' :
  bytesPerSecond (pacer_of p) = rate ->
  clock (pacer_of p) = 0 ->
  session call reqs p w = Returned (p', log) w' ->
  Forall paid log ->
  forall k e, nth_error log k = Some e ->
    first_call_start reqs w + charged rate (firstn (S k) log) <= finished e /\
    time.Second * moved (firstn (S k) log)
    <= rate * (finished e - first_call_start reqs w + Z.of_nat (S k)).
Proof.
  intros Hrate Hclk Hs Hlog k e Hk.
  assert (Hb : first_call_start reqs w + charged rate (firstn (S k) log)
               <= finished e).
  { destruct reqs as [| q reqs]; cbn [first_call_start].
    - apply (session_bound pacer_of call rate rate_pos call_paced
               [] p w p' log w' (wall w) Hrate (or_introl Hclk) (Z.le_refl _)
               Hs (paid_in_budget log Hlog) k e Hk).
    - rewrite session_shift in Hs.
      apply (session_bound pacer_of call rate rate_pos call_paced
               ({| idle := 0; buf := buf q |} :: reqs) p
               {| wall := wall w + Z.of_nat (idle q); sleeps := sleeps w |}
               p' log w' (wall w + Z.of_nat (idle q)) Hrate
               (or_introl Hclk) (Z.le_refl _)
               Hs (paid_in_budget log Hlog) k e Hk). }
  split; [exact Hb |].
  pose proof (moved_le_charged rate (firstn (S k) log) rate_pos
                (Forall_firstn paid (S k) log Hlog)) as Hm.
  pose proof (firstn_le_length (S k) log) as Hlen.
  apply Nat2Z.inj_le in Hlen. nia.
Qed.

End RateBound.

Lemma session_after_ret {A P} (a : A) (k : A -> Go P) w :
  (x <- ret a ;; k x) w = k a w.
Proof. reflexivity. Qed.

(** C1 (as amended).  Through one wrapper built with a rate [> 0] over a
    stream that never moves the wall time backwards, for every session of
    successful transfers whose counts are within the budget and for every
    [k], the wall time elapsed from the start of the first call to the
    return of the [k]-th call is at least the sum of the floors
    [floor (s_i * 10^9 / rate)] of the first [k] transfers in nanoseconds,
    hence at least [(s_1 + ... + s_k) / rate] seconds less [k]
    nanoseconds. *)
Theorem rate_bound_floor :
  (forall R (HR : Reader R), Reader_forward R ->
   forall (r : R) rate reqs w p log w',
     0 < rate ->
     (p0 <- NewReaderPacer r rate ;; session ReadCall reqs p0) w
     = Returned (p, log) w' ->
     Forall paid log ->
     forall k e, nth_error log k = Some e ->
       first_call_start reqs w + charged rate (firstn (S k) log) <= finished e /\
       time.Second * moved (firstn (S k) log)
       <= rate * (finished e - first_call_start reqs w + Z.of_nat (S k))) /\
  (forall W (HW : Writer W), Writer_forward W ->
   forall (s : W) rate reqs w p log w',
     0 < rate ->
     (p0 <- NewWriterPacer s rate ;; session WriteCall reqs p0) w
     = Returned (p, log) w' ->
     Forall paid log ->
     forall k e, nth_error log k = Some e ->
       first_call_start reqs w + charged rate (firstn (S k) log) <= finished e /\
       time.Second * moved (firstn (S k) log)
       <= rate * (finished e - first_call_start reqs w + Z.of_nat (S k))).
Proof.
  split.
  - intros R HR Hfw r rate reqs w p log w' Hrate Hs Hlog k e Hk.
    unfold NewReaderPacer in Hs. rewrite session_after_ret in Hs.
    exact (session_rate_bound rPacer ReadCall rate Hrate
             (ReadCall_paced R forward Hfw) reqs
             {| rPacer := {| bytesPerSecond := rate; clock := 0 |}; reader := r |}
             w p log w' eq_refl eq_refl Hs Hlog k e Hk).
  - intros W HW Hfw s rate reqs w p log w' Hrate Hs Hlog k e Hk.
    unfold NewWriterPacer in Hs. rewrite session_after_ret in Hs.
    exact (session_rate_bound wPacer WriteCall rate Hrate
             (WriteCall_paced W forward Hfw) reqs
             {| wPacer := {| bytesPerSecond := rate; clock := 0 |}; writer := s |}
             w p log w' eq_refl eq_refl Hs Hlog k e Hk).
Qed.

(** C10.  When the wrapped Read returns [n] bytes (any [n], so also
    [n > 0]) together with a non-nil error, ReaderPacer.Read returns that count and that error in the world
    the stream left, with the Pacer untouched; and whatever calls follow,
    the virtual clock (initialised, rate [> 0]) ends at its value before
    the failed call plus the delays of the later successful calls only:
    the [n] bytes are never charged. *)
Theorem error_bytes_never_charged
    {R} `{Reader R} (p : ReaderPacer R) b w r' b' n e w1 :
  io_Read (reader p) b w = Returned (r', b', (n, Some e)) w1 ->
  Read p b w
  = Returned ({| rPacer := rPacer p; reader := r' |}, b', (n, Some e)) w1 /\
  forall reqs w2 p' log w',
    0 < bytesPerSecond (rPacer p) ->
    0 < clock (rPacer p) ->
    session ReadCall reqs {| rPacer := rPacer p; reader := r' |} w2
    = Returned (p', log) w' ->
    Forall in_budget log ->
    clock (rPacer p') = clock (rPacer p) + charged (bytesPerSecond (rPacer p)) log.
Proof.
  intros Hio. split.
  - unfold Read, bind. rewrite Hio. reflexivity.
  - intros reqs w2 p' log w' Hrate Hclk Hs Hlog.
    apply (session_clock rPacer ReadCall (bytesPerSecond (rPacer p)) Hrate
             (ReadCall_paced R anyhow (fun _ _ _ _ _ _ => I))
             reqs {| rPacer := rPacer p; reader := r' |} w2 p' log w'
             eq_refl Hclk Hs Hlog).
Qed.

(* ================================================================== *)
(** ** Concrete runs *)

Lemma Scripted_Reader_forward : Reader_forward Scripted.
Proof.
  intros s b w x w'. unfold io_Read, Scripted_Reader, bind, scripted_call.
  destruct s as [| r s]; unfold ret, bind, pause; intros Hr;
    inversion Hr; subst; cbn [wall]; lia.
Qed.

Lemma Scripted_Writer_forward : Writer_forward Scripted.
Proof.
  intros s b w x w'. unfold io_Write, Scripted_Writer, scripted_call.
  destruct s as [| r s]; unfold ret, bind, pause; intros Hr;
    inversion Hr; subst; cbn [wall]; lia.
Qed.

(** *** C1 *)

(** One byte read at 3 bytes per second returns after 333333333 ns, a
    third of a nanosecond early. *)
Lemma rate_bound_exact_counterexample :
  exists p log w',
    (p0 <- NewReaderPacer [mkResponse 0 1 None] 3 ;;
     session ReadCall [mkRequest 0 [x00]] p0) (quiet this_instant)
    = Returned (p, log) w' /\
    Forall paid log /\
    ~ rate_bound_exact 3 this_instant log.
Proof.
  do 3 eexists. split; [vm_compute; reflexivity |]. split.
  - repeat constructor; vm_compute; intros; discriminate.
  - intros Hb. specialize (Hb 0%nat _ eq_refl). vm_compute in Hb.
    apply Hb. reflexivity.
Qed.

Lemma rate_bound_floor_witness :
  wall (quiet this_instant) + charged 500 (firstn 3 three_writes)
  <= finished (mkEntry 250 None (this_instant + 1500000000)) /\
  time.Second * moved (firstn 3 three_writes)
  <= 500 * (finished (mkEntry 250 None (this_instant + 1500000000))
            - wall (quiet this_instant) + Z.of_nat 3).
Proof.
  eapply (proj2 rate_bound_floor Scripted _ Scripted_Writer_forward
            [mkResponse 0 250 None; mkResponse 0 250 None; mkResponse 0 250 None]
            500
            [mkRequest 0 (repeat x00 250); mkRequest 0 (repeat x00 250);
             mkRequest 0 (repeat x00 250)]
            (quiet this_instant) _ three_writes _).
  - lia.
  - vm_compute. reflexivity.
  - repeat constructor; vm_compute; intros; discriminate.
  - reflexivity.
Defined.

(** *** C2 *)

(** Rate 0 and rate -5 are accepted by NewReaderPacer; at rate 0 the first
    successful Read is what panics. *)
Lemma zero_rate_not_rejected :
  ~ construction_fails 0 /\ ~ construction_fails (-5) /\
  (p <- NewReaderPacer [mkResponse 0 4 None] 0 ;; Read p [x00; x00; x00; x00])
    (quiet this_instant) = Panicked.
Proof.
  split; [| split].
  - intros [Hr _]. specialize (Hr unit tt (quiet this_instant)). discriminate Hr.
  - intros [Hr _]. specialize (Hr unit tt (quiet this_instant)). discriminate Hr.
  - reflexivity.
Qed.

(** *** C3 *)

Lemma error_passes_through_unpaced_witness :
  Read {| rPacer := {| bytesPerSecond := 1000; clock := this_instant |};
          reader := [mkResponse 7 3 (Some EOF)] |}
       [x00; x00; x00; x00] (quiet (this_instant + 20))
  = Returned ({| rPacer := {| bytesPerSecond := 1000; clock := this_instant |};
                 reader := [] |},
              [x00; x00; x00; x00], (3, Some EOF))
             (quiet (this_instant + 27)) /\
  Write {| wPacer := {| bytesPerSecond := 1000; clock := 0 |};
           writer := [mkResponse 0 2 (Some (ErrOther "short write"))] |}
        [x00; x00; x00; x00] (quiet this_instant)
  = Returned ({| wPacer := {| bytesPerSecond := 1000; clock := 0 |};
                 writer := [] |},
              (2, Some (ErrOther "short write")))
             (quiet this_instant).
Proof.
  split.
  - apply (proj1 error_passes_through_unpaced Scripted _). reflexivity.
  - apply (proj2 error_passes_through_unpaced Scripted _). reflexivity.
Defined.

(** *** C4 *)

(** On the first use the clock is set to the wall time: pace(0) on a fresh
    controller leaves it at the current wall time, not at 0 + 0. *)
Lemma fresh_clock_set_to_now :
  0 < bytesPerSecond {| bytesPerSecond := 1000; clock := 0 |} /\
  ~ keeps_previous_clock {| bytesPerSecond := 1000; clock := 0 |} 0
      (quiet this_instant).
Proof.
  split; [reflexivity |]. intros Hk.
  destruct (Hk 0 {| bytesPerSecond := 1000; clock := this_instant |}
               (quiet this_instant) eq_refl eq_refl) as [_ Hc].
  - cbn. apply Z.le_refl.
  - discriminate Hc.
Qed.

(** A caller five seconds behind: 1000 bytes at 1000 B/s move the clock
    one second on, still four seconds behind, and nothing is slept. *)
Lemma slow_caller_keeps_clock_witness :
  pace {| bytesPerSecond := 1000; clock := this_instant - 5000000000 |} 1000
       (quiet this_instant)
  = Returned {| bytesPerSecond := 1000; clock := this_instant - 4000000000 |}
             (quiet this_instant).
Proof.
  apply (slow_caller_keeps_clock
           {| bytesPerSecond := 1000; clock := this_instant - 5000000000 |}
           1000 (quiet this_instant) 1000000000).
  - reflexivity.
  - vm_compute. intros; discriminate.
Defined.

(** *** C5 *)

(** At 1000 B/s the first Read of 1000 bytes sleeps a full second. *)
Lemma first_read_is_delayed :
  ~ first_transfer_undelayed [mkResponse 0 1000 None] 1000 (repeat x00 1000)
      (quiet this_instant) /\
  exists y,
    (p <- NewReaderPacer [mkResponse 0 1000 None] 1000 ;;
     Read p (repeat x00 1000)) (quiet this_instant)
    = Returned y {| wall := this_instant + 1000000000;
                    sleeps := [1000000000] |}.
Proof.
  split.
  - intros Hu.
    destruct (Hu ([], repeat x00 1000, (1000, None)) (quiet this_instant) eq_refl)
      as [y Hy].
    vm_compute in Hy. inversion Hy.
  - eexists. vm_compute. reflexivity.
Qed.

Lemma first_transfer_charged_own_delay_witness :
  (p <- NewReaderPacer [mkResponse 0 1000 None] 1000 ;;
   Read p (repeat x00 1000)) (quiet this_instant)
  = Returned ({| rPacer := {| bytesPerSecond := 1000;
                              clock := this_instant + 1000000000 |};
                 reader := [] |}, repeat x00 1000, (1000, None))
             {| wall := this_instant + 1000000000; sleeps := [1000000000] |}.
Proof.
  apply (proj1 first_transfer_charged_own_delay Scripted _
           [mkResponse 0 1000 None] 1000 (repeat x00 1000) (quiet this_instant)
           [] (repeat x00 1000) 1000 (quiet this_instant)).
  - reflexivity.
  - vm_compute. intros; discriminate.
  - vm_compute. intros; discriminate.
  - reflexivity.
Defined.

(** *** C6 *)

(** On a fresh controller pace(0) sets the virtual clock. *)
Lemma zero_transfer_starts_clock :
  ~ zero_transfer_inert {| bytesPerSecond := 1000; clock := 0 |}
      (quiet this_instant) /\
  pace {| bytesPerSecond := 1000; clock := 0 |} 0 (quiet this_instant)
  = Returned {| bytesPerSecond := 1000; clock := this_instant |}
             (quiet this_instant).
Proof.
  split; [| reflexivity]. unfold zero_transfer_inert. intros Hz.
  vm_compute in Hz. discriminate Hz.
Qed.

Lemma zero_bytes_pace_witness :
  delay_of 0 1000 (quiet this_instant) = Returned 0 (quiet this_instant) /\
  pace {| bytesPerSecond := 1000; clock := this_instant - 3 |} 0
       (quiet this_instant)
  = Returned {| bytesPerSecond := 1000; clock := this_instant - 3 |}
             (quiet this_instant) /\
  (clock {| bytesPerSecond := 1000; clock := this_instant - 3 |} <> 0 ->
   set_clock {| bytesPerSecond := 1000; clock := this_instant - 3 |}
             (clock_base {| bytesPerSecond := 1000; clock := this_instant - 3 |}
                         (wall (quiet this_instant)))
   = {| bytesPerSecond := 1000; clock := this_instant - 3 |}).
Proof.
  apply (zero_bytes_pace {| bytesPerSecond := 1000; clock := this_instant - 3 |}
           (quiet this_instant)).
  - discriminate.
  - vm_compute. intros; discriminate.
Defined.

(** *** C7 *)

(** A single transfer of 9223372037 bytes (about 9.2 GB) at 1 B/s: the
    product with [time.Second] wraps to a negative delay and the clock
    moves back by some 292 years. *)
Lemma clock_decreases_on_overflow :
  0 < bytesPerSecond {| bytesPerSecond := 1; clock := this_instant |} /\
  0 <= 9223372037 /\ Int.in_range 9223372037 /\
  ~ clock_never_decreases {| bytesPerSecond := 1; clock := this_instant |}
      9223372037 (quiet this_instant) /\
  pace {| bytesPerSecond := 1; clock := this_instant |} 9223372037
       (quiet this_instant)
  = Returned {| bytesPerSecond := 1;
                clock := this_instant - 9223372036709551616 |}
             (quiet this_instant).
Proof.
  split; [reflexivity |]. split; [discriminate |].
  split; [split; discriminate |]. split; [| vm_compute; reflexivity].
  intros Hm.
  specialize (Hm {| bytesPerSecond := 1;
                    clock := this_instant - 9223372036709551616 |}
                 (quiet this_instant) ltac:(vm_compute; reflexivity)).
  vm_compute in Hm. apply Hm. reflexivity.
Qed.

Lemma clock_monotone_in_budget_witness :
  exists p' w',
    pace {| bytesPerSecond := 500; clock := this_instant |} 250
         (quiet this_instant) = Returned p' w' /\
    clock {| bytesPerSecond := 500; clock := this_instant |} <= clock p' /\
    bytesPerSecond p' = bytesPerSecond {| bytesPerSecond := 500; clock := this_instant |} /\
    wall (quiet this_instant) <= wall w'.
Proof.
  apply (clock_monotone_in_budget
           {| bytesPerSecond := 500; clock := this_instant |} 250
           (quiet this_instant)).
  - reflexivity.
  - discriminate.
  - vm_compute. intros; discriminate.
  - discriminate.
Defined.

(** *** C8 *)

Lemma delay_is_floor_witness :
  Int.mul time.Second 1500 = time.Second * 1500 /\
  delay_of 1500 1000 (quiet this_instant)
  = Returned 1500000000 (quiet this_instant) /\
  0 <= 1500000000 <= Int.max_int /\
  1000 * 1500000000 <= time.Second * 1500 < 1000 * (1500000000 + 1) /\
  exists w', pace {| bytesPerSecond := 1000; clock := 0 |} 1500 (quiet this_instant)
             = Returned {| bytesPerSecond := 1000;
                           clock := this_instant + 1500000000 |} w'.
Proof.
  apply (delay_is_floor {| bytesPerSecond := 1000; clock := 0 |} 1500
           (quiet this_instant)).
  - discriminate.
  - reflexivity.
  - vm_compute. intros; discriminate.
Defined.

(** *** C9 *)

(** A wrapper built with rate 0: the stream writes 5 bytes without error,
    pace divides by zero, and Write panics instead of returning. *)
Lemma zero_rate_success_does_not_return :
  NewWriterPacer [mkResponse 0 5 None] 0 (quiet this_instant)
  = Returned {| wPacer := {| bytesPerSecond := 0; clock := 0 |};
                writer := [mkResponse 0 5 None] |} (quiet this_instant) /\
  (p <- NewWriterPacer [mkResponse 0 5 None] 0 ;; Write p (repeat x00 8))
    (quiet this_instant) = Panicked /\
  ~ success_is_returned
      {| wPacer := {| bytesPerSecond := 0; clock := 0 |};
         writer := [mkResponse 0 5 None] |}
      (repeat x00 8) (quiet this_instant).
Proof.
  split; [reflexivity |]. split; [reflexivity |].
  intros Hs.
  destruct (Hs [] 5 (quiet this_instant) eq_refl) as (p' & w' & Hw).
  vm_compute in Hw. discriminate Hw.
Qed.

(** A partial write: 5 of 8 bytes are written, 5 ms are charged. *)
Lemma success_paces_returned_count_witness :
  Write {| wPacer := {| bytesPerSecond := 1000; clock := 0 |};
           writer := [mkResponse 0 5 None] |}
        (repeat x00 8) (quiet this_instant)
  = Returned ({| wPacer := {| bytesPerSecond := 1000;
                              clock := this_instant + 5000000 |};
                 writer := [] |}, (5, None))
             {| wall := this_instant + 5000000; sleeps := [5000000] |}.
Proof.
  destruct (proj2 success_paces_returned_count Scripted _
              {| wPacer := {| bytesPerSecond := 1000; clock := 0 |};
                 writer := [mkResponse 0 5 None] |}
              (repeat x00 8) (quiet this_instant) [] 5 (quiet this_instant)
              eq_refl) as (_ & Hret & _).
  refine (eq_trans (Hret _) _); [discriminate | vm_compute; reflexivity].
Defined.

(** *** C10 *)

(** A Read returns 5 bytes with an error; two later Reads return 1000
    bytes and then 0 bytes with EOF: only the 1000 bytes are charged. *)
Lemma error_bytes_never_charged_witness :
  Read {| rPacer := {| bytesPerSecond := 1000; clock := this_instant |};
          reader := [mkResponse 0 5 (Some (ErrOther "timeout"));
                     mkResponse 0 1000 None] |}
       (repeat x00 8) (quiet this_instant)
  = Returned ({| rPacer := {| bytesPerSecond := 1000; clock := this_instant |};
                 reader := [mkResponse 0 1000 None] |},
              repeat x00 8, (5, Some (ErrOther "timeout")))
             (quiet this_instant) /\
  clock {| bytesPerSecond := 1000; clock := this_instant + 1000000000 |}
  = this_instant
    + charged 1000 [mkEntry 1000 None (this_instant + 1000000000);
                    mkEntry 0 (Some EOF) (this_instant + 1000000000)].
Proof.
  destruct (error_bytes_never_charged
              {| rPacer := {| bytesPerSecond := 1000; clock := this_instant |};
                 reader := [mkResponse 0 5 (Some (ErrOther "timeout"));
                            mkResponse 0 1000 None] |}
              (repeat x00 8) (quiet this_instant)
              [mkResponse 0 1000 None] (repeat x00 8) 5 (ErrOther "timeout")
              (quiet this_instant) eq_refl) as [Hread Hlater].
  split; [exact Hread |].
  apply (Hlater [mkRequest 0 (repeat x00 1000); mkRequest 0 (repeat x00 1000)]
           (quiet this_instant)
           {| rPacer := {| bytesPerSecond := 1000;
                           clock := this_instant + 1000000000 |};
              reader := [] |}
           [mkEntry 1000 None (this_instant + 1000000000);
            mkEntry 0 (Some EOF) (this_instant + 1000000000)]
           {| wall := this_instant + 1000000000; sleeps := [1000000000] |}).
  - reflexivity.
  - reflexivity.
  - vm_compute. reflexivity.
  - repeat constructor; vm_compute; intros; discriminate.
Defined.

(* ================================================================== *)
(** ** Further properties of pace *)

Lemma quo_in_range a b : Int.in_range (Int.quo a b).
Proof. apply wrap64_in_range. Qed.

Lemma Sub_positive c now : now < c -> 0 < time.Sub c now.
Proof.
  intros Hlt. unfold time.Sub, time.maxDuration, time.minDuration.
  destruct (Int.max_int <? c - now); [reflexivity |].
  destruct (c - now <? Int.min_int) eqn:E; [| lia].
  apply Z.ltb_lt in E. unfold Int.min_int in E. lia.
Qed.

Lemma clock_base_settled p w :
  settled p w -> clock_base p (wall w) <= wall w.
Proof.
  intros [Hz | Hle]; unfold clock_base, time.IsZero.
  - rewrite Hz. apply Z.le_refl.
  - destruct (clock p =? 0); [apply Z.le_refl | exact Hle].
Qed.

(** From a settled state, whatever the count and the non-zero rate, the
    sleep of pace is not cut short by the saturation of [Sub]: pace
    returns with the wall time at the later of the old wall time and the
    new clock. *)
Lemma pace_settled p cc w p' w' :
  settled p w ->
  pace p cc w = Returned p' w' ->
  bytesPerSecond p' = bytesPerSecond p /\
  clock p' = paced_clock p cc w /\
  wall w' = Z.max (wall w) (clock p').
Proof.
  intros Hs Hp.
  destruct (Z.eq_dec (bytesPerSecond p) 0) as [H0 | Hne];
    [rewrite pace_panics in Hp by exact H0; discriminate |].
  rewrite pace_returns in Hp by exact Hne.
  pose proof (clock_base_settled p w Hs) as Hb.
  pose proof (quo_in_range (Int.mul time.Second cc) (bytesPerSecond p)) as [_ Hq].
  inversion Hp as [[Hp' Hw']]. clear Hp Hp' Hw'.
  unfold set_clock, paced_clock; cbn [clock bytesPerSecond].
  split; [reflexivity |]. split; [reflexivity |].
  set (c := clock_base p (wall w)
            + Int.quo (Int.mul time.Second cc) (bytesPerSecond p)) in *.
  destruct (wall w <? c) eqn:E.
  - apply Z.ltb_lt in E. rewrite Sub_exact by lia.
    unfold time.slept; cbn [wall].
    replace (0 <? c - wall w) with true by (symmetry; apply Z.ltb_lt; lia).
    lia.
  - apply Z.ltb_ge in E. lia.
Qed.

(** X1.  pace panics exactly when the rate is 0, whatever the byte count
    (0 included) and the state of the clock; with any other rate it
    returns. *)
Theorem pace_panics_iff (p : Pacer) (cc : Z) (w : World) :
  pace p cc w = Panicked <-> bytesPerSecond p = 0.
Proof.
  split.
  - intros Hp. destruct (Z.eq_dec (bytesPerSecond p) 0) as [H0 | Hne];
      [exact H0 |].
    rewrite pace_returns in Hp by exact Hne. discriminate Hp.
  - apply pace_panics.
Qed.

(** X2.  A call of pace that returns has kept the rate, and has either
    left the world as it was or called [time.Sleep] once, with a positive
    duration: it never sleeps a zero or negative time and never moves the
    wall time backwards. *)
Theorem pace_sleeps_at_most_once (p : Pacer) (cc : Z) (w : World) p' w' :
  pace p cc w = Returned p' w' ->
  bytesPerSecond p' = bytesPerSecond p /\
  (w' = w \/ exists d, 0 < d /\ w' = time.slept d w) /\
  wall w <= wall w'.
Proof.
  intros Hp.
  destruct (Z.eq_dec (bytesPerSecond p) 0) as [H0 | Hne];
    [rewrite pace_panics in Hp by exact H0; discriminate |].
  rewrite pace_returns in Hp by exact Hne.
  inversion Hp as [[Hp' Hw']]. clear Hp Hp' Hw'.
  split; [reflexivity |].
  match goal with |- context [?a <? ?b] => destruct (a <? b) eqn:E end.
  - apply Z.ltb_lt in E. apply Sub_positive in E.
    split; [right; eexists; split; [exact E | reflexivity] |].
    unfold time.slept; cbn [wall].
    replace (0 <? _) with true by (symmetry; apply Z.ltb_lt; exact E). lia.
  - split; [left; reflexivity | apply Z.le_refl].
Qed.

(** X4.  With a rate [> 0] and a count within the budget, from a state
    whose clock is unset or not ahead of the wall time, pace asks
    [time.Sleep] for the part of the delay that the caller has not
    already spent: when the new clock is not ahead of the wall time it
    does not call Sleep, otherwise it calls it once with the duration
    [base + delay - now], which is positive and never more than the delay
    of its own count. *)
Theorem pace_requests_at_most_delay (p : Pacer) (cc : Z) (w : World) p' w' :
  0 < bytesPerSecond p -> 0 <= cc -> time.Second * cc <= Int.max_int ->
  settled p w ->
  pace p cc w = Returned p' w' ->
  let d := time.Second * cc / bytesPerSecond p in
  let ahead := clock_base p (wall w) + d - wall w in
  (ahead <= 0 /\ sleeps w' = sleeps w) \/
  (0 < ahead <= d /\ sleeps w' = ahead :: sleeps w).
Proof.
  intros Hrate Hcc Hfit Hs Hp d ahead.
  destruct (delay_in_budget cc (bytesPerSecond p) Hcc Hrate Hfit) as (_ & Hquo & Hd).
  rewrite pace_returns in Hp by lia. rewrite Hquo in Hp. fold d in Hp, Hd.
  pose proof (clock_base_settled p w Hs) as Hb.
  inversion Hp as [[Hp' Hw']]. clear Hp Hp' Hw'.
  destruct (wall w <? clock_base p (wall w) + d) eqn:E.
  - apply Z.ltb_lt in E. right. rewrite Sub_exact by lia.
    unfold time.slept; cbn [sleeps]. subst ahead. split; [lia | reflexivity].
  - apply Z.ltb_ge in E. left. subst ahead. split; [lia | reflexivity].
Qed.

(** X5.  A transfer so small that [cc * 10^9 < rate] (less than a
    nanosecond at the configured rate) costs nothing: on an initialised
    clock not ahead of the wall time pace returns with the controller and
    the world unchanged, so a stream of such transfers is never paced. *)
Theorem tiny_transfer_is_free (p : Pacer) (cc : Z) (w : World) :
  0 <= cc -> time.Second * cc < bytesPerSecond p ->
  time.Second * cc <= Int.max_int ->
  clock p <> 0 -> clock p <= wall w ->
  pace p cc w = Returned p w.
Proof.
  intros Hcc Hsmall Hfit Hc Hle.
  assert (Hrate : 0 < bytesPerSecond p) by (unfold time.Second in *; lia).
  destruct (delay_in_budget cc (bytesPerSecond p) Hcc Hrate Hfit) as (_ & Hquo & _).
  rewrite pace_returns by lia. rewrite Hquo.
  rewrite Z.div_small by (unfold time.Second in *; lia).
  unfold clock_base, time.IsZero.
  destruct (clock p =? 0) eqn:E; [apply Z.eqb_eq in E; contradiction |].
  rewrite Z.add_0_r, set_clock_same.
  destruct (wall w <? clock p) eqn:E'; [apply Z.ltb_lt in E'; lia | reflexivity].
Qed.

(** X6.  A negative rate, which the constructors accept, turns pacing
    off: for a count within the budget pace never blocks and moves the
    virtual clock backwards by [floor (cc * 10^9 / -rate)]. *)
Theorem negative_rate_never_blocks (p : Pacer) (cc : Z) (w : World) :
  bytesPerSecond p < 0 -> 0 <= cc -> time.Second * cc <= Int.max_int ->
  settled p w ->
  pace p cc w
  = Returned (set_clock p (clock_base p (wall w)
                           - time.Second * cc / - bytesPerSecond p)) w.
Proof.
  intros Hrate Hcc Hfit Hs.
  assert (Hpos : 0 <= time.Second * cc) by (unfold time.Second; lia).
  assert (Hmul : Int.mul time.Second cc = time.Second * cc).
  { unfold Int.mul. apply wrap64_small.
    unfold Int.in_range, Int.min_int. split; [lia | exact Hfit]. }
  assert (Hq : Int.quo (Int.mul time.Second cc) (bytesPerSecond p)
               = - (time.Second * cc / - bytesPerSecond p)).
  { unfold Int.quo. rewrite Hmul.
    replace (bytesPerSecond p) with (- - bytesPerSecond p) at 1 by lia.
    rewrite Z.quot_opp_r by lia. rewrite Z.quot_div_nonneg by lia.
    apply wrap64_small.
    assert (0 <= time.Second * cc / - bytesPerSecond p
            <= time.Second * cc).
    { split; [apply Z.div_pos; lia |].
      apply Z.div_le_upper_bound; nia. }
    unfold Int.in_range, Int.min_int, Int.max_int in *. lia. }
  rewrite pace_returns by lia. rewrite Hq.
  assert (0 <= time.Second * cc / - bytesPerSecond p)
    by (apply Z.div_pos; lia).
  pose proof (clock_base_settled p w Hs).
  replace (clock_base p (wall w) + - (time.Second * cc / - bytesPerSecond p))
    with (clock_base p (wall w) - time.Second * cc / - bytesPerSecond p) by lia.
  match goal with |- context [?a <? ?b] => destruct (a <? b) eqn:E end;
    [apply Z.ltb_lt in E; lia | reflexivity].
Qed.

(* ================================================================== *)
(** ** Further properties of the wrappers *)

(** X7.  Read and Write panic in two cases only: the wrapped stream
    panicked, or it succeeded (nil error) on a wrapper whose rate is 0.
    A wrapper with rate 0 therefore still passes errors through. *)
Theorem wrapper_panics_iff :
  (forall R (HR : Reader R) (p : ReaderPacer R) b w,
      Read p b w = Panicked <->
      io_Read (reader p) b w = Panicked \/
      (bytesPerSecond (rPacer p) = 0 /\
       exists r' b' cc w1,
         io_Read (reader p) b w = Returned (r', b', (cc, None)) w1)) /\
  (forall W (HW : Writer W) (p : WriterPacer W) b w,
      Write p b w = Panicked <->
      io_Write (writer p) b w = Panicked \/
      (bytesPerSecond (wPacer p) = 0 /\
       exists s' cc w1,
         io_Write (writer p) b w = Returned (s', (cc, None)) w1)).
Proof.
  split.
  - intros R HR p b w. unfold Read, bind.
    destruct (io_Read (reader p) b w) as [[[r1 b1] [cc [e |]]] w1 |];
      cbn [rPacer reader].
    + unfold ret. split; [discriminate |].
      intros [Hd | (_ & r' & b' & n & w2 & Hd)]; discriminate Hd.
    + destruct (Z.eq_dec (bytesPerSecond (rPacer p)) 0) as [H0 | Hne].
      * rewrite pace_panics by exact H0. split; [| reflexivity].
        intros _. right. split; [exact H0 |]. do 4 eexists. reflexivity.
      * rewrite pace_returns by exact Hne. unfold ret. split; [discriminate |].
        intros [Hd | (H0 & _)]; [discriminate Hd | contradiction].
    + split; [left; reflexivity | reflexivity].
  - intros W HW p b w. unfold Write, bind.
    destruct (io_Write (writer p) b w) as [[s1 [cc [e |]]] w1 |];
      cbn [wPacer writer].
    + unfold ret. split; [discriminate |].
      intros [Hd | (_ & s' & n & w2 & Hd)]; discriminate Hd.
    + destruct (Z.eq_dec (bytesPerSecond (wPacer p)) 0) as [H0 | Hne].
      * rewrite pace_panics by exact H0. split; [| reflexivity].
        intros _. right. split; [exact H0 |]. do 3 eexists. reflexivity.
      * rewrite pace_returns by exact Hne. unfold ret. split; [discriminate |].
        intros [Hd | (H0 & _)]; [discriminate Hd | contradiction].
    + split; [left; reflexivity | reflexivity].
Qed.

(** X8.  Whatever Read or Write returns is what the wrapped stream
    returned: the same count, the same error, the same buffer contents and
    the stream in the state its own call left it; the wrapper only adds
    time (the wall time at return is not before the stream's) and never
    changes the rate. *)
Theorem wrapper_is_transparent :
  (forall R (HR : Reader R) (p : ReaderPacer R) b w p' b' res w',
      Read p b w = Returned (p', b', res) w' ->
      exists w1,
        io_Read (reader p) b w = Returned (reader p', b', res) w1 /\
        wall w1 <= wall w' /\
        bytesPerSecond (rPacer p') = bytesPerSecond (rPacer p)) /\
  (forall W (HW : Writer W) (p : WriterPacer W) b w p' res w',
      Write p b w = Returned (p', res) w' ->
      exists w1,
        io_Write (writer p) b w = Returned (writer p', res) w1 /\
        wall w1 <= wall w' /\
        bytesPerSecond (wPacer p') = bytesPerSecond (wPacer p)).
Proof.
  split.
  - intros R HR p b w p' b' res w'. unfold Read, bind.
    destruct (io_Read (reader p) b w) as [[[r1 b1] [cc [e |]]] w1 |];
      cbn [rPacer reader]; [| | discriminate].
    + unfold ret. intros Hr. inversion Hr; subst.
      exists w'. cbn. split; [reflexivity |]. split; [apply Z.le_refl | reflexivity].
    + destruct (pace (rPacer p) cc w1) as [q w2 |] eqn:Hp; [| discriminate].
      unfold ret. intros Hr. inversion Hr; subst.
      exists w1. cbn [reader rPacer]. split; [reflexivity |].
      destruct (Z.eq_dec (bytesPerSecond (rPacer p)) 0) as [H0 | Hne];
        [rewrite pace_panics in Hp by exact H0; discriminate |].
      rewrite pace_returns in Hp by exact Hne.
      inversion Hp as [[Hq Hw]]. split; [| reflexivity].
      match goal with |- context [?a <? ?b] => destruct (a <? b) eqn:E end;
        [| apply Z.le_refl].
      apply Z.ltb_lt in E. apply Sub_positive in E.
      unfold time.slept; cbn [wall].
      replace (0 <? _) with true by (symmetry; apply Z.ltb_lt; exact E). lia.
  - intros W HW p b w p' res w'. unfold Write, bind.
    destruct (io_Write (writer p) b w) as [[s1 [cc [e |]]] w1 |];
      cbn [wPacer writer]; [| | discriminate].
    + unfold ret. intros Hr. inversion Hr; subst.
      exists w'. cbn. split; [reflexivity |]. split; [apply Z.le_refl | reflexivity].
    + destruct (pace (wPacer p) cc w1) as [q w2 |] eqn:Hp; [| discriminate].
      unfold ret. intros Hr. inversion Hr; subst.
      exists w1. cbn [writer wPacer]. split; [reflexivity |].
      destruct (Z.eq_dec (bytesPerSecond (wPacer p)) 0) as [H0 | Hne];
        [rewrite pace_panics in Hp by exact H0; discriminate |].
      rewrite pace_returns in Hp by exact Hne.
      inversion Hp as [[Hq Hw]]. split; [| reflexivity].
      match goal with |- context [?a <? ?b] => destruct (a <? b) eqn:E end;
        [| apply Z.le_refl].
      apply Z.ltb_lt in E. apply Sub_positive in E.
      unfold time.slept; cbn [wall].
      replace (0 <? _) with true by (symmetry; apply Z.ltb_lt; exact E). lia.
Qed.

(* ================================================================== *)
(** ** Further properties of sessions *)

Lemma charged_nonneg rate log :
  0 < rate -> Forall in_budget log -> 0 <= charged rate log.
Proof.
  intros Hrate Hlog. induction Hlog as [| e l He Hl IH]; [cbn; lia |].
  rewrite charged_cons. unfold charge. destruct (err e) eqn:E; [lia |].
  destruct (He E) as [Hc Hf].
  assert (0 <= time.Second * count e / rate)
    by (apply Z.div_pos; unfold time.Second; lia).
  lia.
Qed.

Lemma rate_charged_le_moved rate log :
  0 < rate -> Forall paid log ->
  rate * charged rate log <= time.Second * moved log.
Proof.
  intros Hrate Hlog. induction Hlog as [| e l (He & Hc & Hf) Hl IH].
  - cbn. lia.
  - rewrite charged_cons. unfold moved in *. cbn [fold_right].
    unfold charge. rewrite He.
    pose proof (Z.mul_div_le (time.Second * count e) rate Hrate). lia.
Qed.

(** One pace within the budget on an initialised clock with enough slack:
    nothing is slept. *)
Lemma pace_on_credit p cc w :
  0 < bytesPerSecond p -> 0 <= cc -> time.Second * cc <= Int.max_int ->
  0 < clock p ->
  clock p + time.Second * cc / bytesPerSecond p <= wall w ->
  pace p cc w
  = Returned (set_clock p (clock p + time.Second * cc / bytesPerSecond p)) w.
Proof.
  intros Hrate Hcc Hfit Hc Hle.
  destruct (delay_in_budget cc (bytesPerSecond p) Hcc Hrate Hfit) as (_ & Hquo & _).
  rewrite pace_returns by lia. rewrite Hquo.
  unfold clock_base, time.IsZero.
  destruct (clock p =? 0) eqn:E; [apply Z.eqb_eq in E; lia |].
  match goal with |- context [?a <? ?b] => destruct (a <? b) eqn:E' end;
    [apply Z.ltb_lt in E'; lia | reflexivity].
Qed.

Section SessionInvariants.

Context {P : Type}.
Variable pacer_of : P -> Pacer.
Variable call : P -> list byte -> Go (P * (Z * option error)).

Lemma session_settled :
  paced_call forward pacer_of call ->
  forall reqs p w p' log w',
    settled (pacer_of p) w ->
    session call reqs p w = Returned (p', log) w' ->
    settled (pacer_of p') w' /\
    bytesPerSecond (pacer_of p') = bytesPerSecond (pacer_of p) /\
    wall w <= wall w'.
Proof.
  intros Hcall. induction reqs as [| q reqs IH]; intros p w p' log w' Hset Hs.
  - cbn in Hs. unfold ret in Hs. inversion Hs; subst.
    split; [exact Hset |]. split; [reflexivity | apply Z.le_refl].
  - apply session_cons in Hs.
    destruct Hs as (p1 & cc & er & w1 & log1 & Hc & Hs & _).
    apply Hcall in Hc. destruct Hc as (w0 & Hfw & Hc).
    unfold forward in Hfw; cbn [wall] in Hfw.
    assert (Hset0 : settled (pacer_of p) w0)
      by (destruct Hset as [Hz | Hle]; [left; exact Hz | right; lia]).
    assert (Hstep : settled (pacer_of p1) w1 /\
                    bytesPerSecond (pacer_of p1) = bytesPerSecond (pacer_of p) /\
                    wall w0 <= wall w1).
    { destruct er as [er |].
      - destruct Hc as [Hpc ->]. rewrite Hpc.
        split; [exact Hset0 |]. split; [reflexivity | apply Z.le_refl].
      - destruct (pace_settled _ _ _ _ _ Hset0 Hc) as (Hr & _ & Hw).
        split; [right; lia |]. split; [exact Hr | lia]. }
    destruct Hstep as (Hset1 & Hr1 & Hw1).
    destruct (IH p1 w1 p' log1 w' Hset1 Hs) as (Hset' & Hr' & Hw').
    split; [exact Hset' |]. split; [congruence | lia].
Qed.

Variable rate : Z.
Hypothesis rate_pos : 0 < rate.

Lemma session_on_credit :
  paced_call sleepless pacer_of call ->
  forall reqs p w p' log w',
    bytesPerSecond (pacer_of p) = rate ->
    0 < clock (pacer_of p) ->
    session call reqs p w = Returned (p', log) w' ->
    Forall in_budget log ->
    clock (pacer_of p) + charged rate log <= wall w ->
    sleeps w' = sleeps w.
Proof.
  intros Hcall. induction reqs as [| q reqs IH];
    intros p w p' log w' Hrate Hclk Hs Hlog Hcredit.
  - cbn in Hs. unfold ret in Hs. inversion Hs as [[Hp' Hlog' Hw']]. reflexivity.
  - apply session_cons in Hs.
    destruct Hs as (p1 & cc & er & w1 & log1 & Hc & Hs & ->).
    apply Hcall in Hc. destruct Hc as (w0 & [Hfw Hsl] & Hc).
    cbn [wall sleeps] in Hfw, Hsl.
    apply Forall_cons_iff in Hlog. destruct Hlog as [Hx Hl].
    pose proof (charged_nonneg rate log1 rate_pos Hl) as Hrest.
    rewrite charged_cons in Hcredit. unfold charge in Hcredit; cbn [err count] in Hcredit.
    destruct er as [er |].
    + destruct Hc as [Hpc ->].
      rewrite (IH p1 w0 p' log1 w') by (rewrite ?Hpc; try assumption; lia).
      exact Hsl.
    + destruct (Hx eq_refl) as [Hcc Hfit]. cbn [count] in Hcc, Hfit.
      assert (Hrp : 0 < bytesPerSecond (pacer_of p)) by lia.
      assert (Hd : 0 <= time.Second * cc / rate)
        by (apply Z.div_pos; unfold time.Second; lia).
      rewrite pace_on_credit in Hc by (rewrite ?Hrate; try assumption; lia).
      inversion Hc as [[Hp1 Hw1]].
      assert (Hc1 : clock (pacer_of p1)
                    = clock (pacer_of p) + time.Second * cc / rate)
        by (rewrite <- Hp1, Hrate; reflexivity).
      assert (Hr1 : bytesPerSecond (pacer_of p1) = rate)
        by (rewrite <- Hp1; exact Hrate).
      rewrite (IH p1 w1 p' log1 w' Hr1) by (try assumption; rewrite <- ?Hw1; lia).
      rewrite <- Hw1. exact Hsl.
Qed.

End SessionInvariants.

(** X9.  Every state a caller can reach through a wrapper, from its
    construction on and over a stream that never moves the wall time
    backwards, has the virtual clock unset or not ahead of the wall time,
    and still holds the rate given to the constructor: whenever a call
    has returned, the rate allows the next one. *)
Theorem reachable_states_are_settled :
  (forall R (HR : Reader R), Reader_forward R ->
   forall (r : R) rate reqs w p log w',
     (p0 <- NewReaderPacer r rate ;; session ReadCall reqs p0) w
     = Returned (p, log) w' ->
     settled (rPacer p) w' /\ bytesPerSecond (rPacer p) = rate) /\
  (forall W (HW : Writer W), Writer_forward W ->
   forall (s : W) rate reqs w p log w',
     (p0 <- NewWriterPacer s rate ;; session WriteCall reqs p0) w
     = Returned (p, log) w' ->
     settled (wPacer p) w' /\ bytesPerSecond (wPacer p) = rate).
Proof.
  split.
  - intros R HR Hfw r rate reqs w p log w' Hs.
    unfold NewReaderPacer in Hs. rewrite session_after_ret in Hs.
    destruct (session_settled rPacer ReadCall (ReadCall_paced R forward Hfw)
                reqs
                {| rPacer := {| bytesPerSecond := rate; clock := 0 |}; reader := r |}
                w p log w' (or_introl eq_refl) Hs) as (Hset & Hr & _).
    split; [exact Hset | exact Hr].
  - intros W HW Hfw s rate reqs w p log w' Hs.
    unfold NewWriterPacer in Hs. rewrite session_after_ret in Hs.
    destruct (session_settled wPacer WriteCall (WriteCall_paced W forward Hfw)
                reqs
                {| wPacer := {| bytesPerSecond := rate; clock := 0 |}; writer := s |}
                w p log w' (or_introl eq_refl) Hs) as (Hset & Hr & _).
    split; [exact Hset | exact Hr].
Qed.

(** X11.  When the wrapped Write returns [n] bytes together with a
    non-nil error (a short write), WriterPacer.Write returns that count
    and that error in the world the stream left, with the Pacer untouched;
    and whatever calls follow, the virtual clock (initialised, rate [> 0])
    ends at its value before the failed call plus the delays of the later
    successful calls only. *)
Theorem write_error_bytes_never_charged
    {W} `{Writer W} (p : WriterPacer W) b w s' n e w1 :
  io_Write (writer p) b w = Returned (s', (n, Some e)) w1 ->
  Write p b w
  = Returned ({| wPacer := wPacer p; writer := s' |}, (n, Some e)) w1 /\
  forall reqs w2 p' log w',
    0 < bytesPerSecond (wPacer p) ->
    0 < clock (wPacer p) ->
    session WriteCall reqs {| wPacer := wPacer p; writer := s' |} w2
    = Returned (p', log) w' ->
    Forall in_budget log ->
    clock (wPacer p') = clock (wPacer p) + charged (bytesPerSecond (wPacer p)) log.
Proof.
  intros Hio. split.
  - unfold Write, bind. rewrite Hio. reflexivity.
  - intros reqs w2 p' log w' Hrate Hclk Hs Hlog.
    apply (session_clock wPacer WriteCall (bytesPerSecond (wPacer p)) Hrate
             (WriteCall_paced W anyhow (fun _ _ _ _ _ _ => I))
             reqs {| wPacer := wPacer p; writer := s' |} w2 p' log w'
             eq_refl Hclk Hs Hlog).
Qed.

Lemma advance_within_whole rate log adv :
  0 < rate -> Forall paid log -> adv = charged rate log ->
  adv <= time.Second * moved log / rate <= adv + Z.of_nat (List.length log).
Proof.
  intros Hrate Hlog ->. split.
  - apply Z.div_le_lower_bound; [exact Hrate |].
    apply rate_charged_le_moved; assumption.
  - apply Z.div_le_upper_bound; [exact Hrate |].
    apply moved_le_charged; assumption.
Qed.

(** X12.  Splitting a transfer into pieces never costs more and costs at
    most a nanosecond per piece less: over any session of [n] successful
    transfers within the budget (initialised clock, rate [> 0]) the
    virtual clock advances by at most the delay of one transfer of the
    total size, and by at least that delay less [n] nanoseconds. *)
Theorem split_transfers_clock_advance :
  (forall R (HR : Reader R) (p : ReaderPacer R) reqs w p' log w',
     0 < bytesPerSecond (rPacer p) -> 0 < clock (rPacer p) ->
     session ReadCall reqs p w = Returned (p', log) w' ->
     Forall paid log ->
     clock (rPacer p') - clock (rPacer p)
     <= time.Second * moved log / bytesPerSecond (rPacer p)
     <= clock (rPacer p') - clock (rPacer p) + Z.of_nat (List.length log)) /\
  (forall W (HW : Writer W) (p : WriterPacer W) reqs w p' log w',
     0 < bytesPerSecond (wPacer p) -> 0 < clock (wPacer p) ->
     session WriteCall reqs p w = Returned (p', log) w' ->
     Forall paid log ->
     clock (wPacer p') - clock (wPacer p)
     <= time.Second * moved log / bytesPerSecond (wPacer p)
     <= clock (wPacer p') - clock (wPacer p) + Z.of_nat (List.length log)).
Proof.
  split.
  - intros R HR p reqs w p' log w' Hrate Hclk Hs Hlog.
    apply advance_within_whole; [exact Hrate | exact Hlog |].
    rewrite (session_clock rPacer ReadCall (bytesPerSecond (rPacer p)) Hrate
               (ReadCall_paced R anyhow (fun _ _ _ _ _ _ => I))
               reqs p w p' log w' eq_refl Hclk Hs (paid_in_budget log Hlog)).
    lia.
  - intros W HW p reqs w p' log w' Hrate Hclk Hs Hlog.
    apply advance_within_whole; [exact Hrate | exact Hlog |].
    rewrite (session_clock wPacer WriteCall (bytesPerSecond (wPacer p)) Hrate
               (WriteCall_paced W anyhow (fun _ _ _ _ _ _ => I))
               reqs p w p' log w' eq_refl Hclk Hs (paid_in_budget log Hlog)).
    lia.
Qed.

(** X13.  Slack is never capped: when the virtual clock (initialised,
    rate [> 0]) is behind the wall time by at least the delays of all the
    successful transfers of a session, the wrapper does not sleep in any
    of its calls, however long the slack has built up and however many
    calls spend it. *)
Theorem burst_on_credit :
  (forall R (HR : Reader R), Reader_sleepless R ->
   forall (p : ReaderPacer R) reqs w p' log w',
     0 < bytesPerSecond (rPacer p) -> 0 < clock (rPacer p) ->
     session ReadCall reqs p w = Returned (p', log) w' ->
     Forall in_budget log ->
     clock (rPacer p) + charged (bytesPerSecond (rPacer p)) log <= wall w ->
     sleeps w' = sleeps w) /\
  (forall W (HW : Writer W), Writer_sleepless W ->
   forall (p : WriterPacer W) reqs w p' log w',
     0 < bytesPerSecond (wPacer p) -> 0 < clock (wPacer p) ->
     session WriteCall reqs p w = Returned (p', log) w' ->
     Forall in_budget log ->
     clock (wPacer p) + charged (bytesPerSecond (wPacer p)) log <= wall w ->
     sleeps w' = sleeps w).
Proof.
  split.
  - intros R HR Hq p reqs w p' log w' Hrate Hclk Hs Hlog Hcredit.
    exact (session_on_credit rPacer ReadCall (bytesPerSecond (rPacer p)) Hrate
             (ReadCall_paced R sleepless Hq) reqs p w p' log w'
             eq_refl Hclk Hs Hlog Hcredit).
  - intros W HW Hq p reqs w p' log w' Hrate Hclk Hs Hlog Hcredit.
    exact (session_on_credit wPacer WriteCall (bytesPerSecond (wPacer p)) Hrate
             (WriteCall_paced W sleepless Hq) reqs p w p' log w'
             eq_refl Hclk Hs Hlog Hcredit).
Qed.

(* ================================================================== *)
(** ** Concrete runs of the further properties *)

Lemma Scripted_Reader_sleepless : Reader_sleepless Scripted.
Proof.
  intros s b w x w'. unfold io_Read, Scripted_Reader, bind, scripted_call.
  destruct s as [| r s]; unfold ret, bind, pause; intros Hr;
    inversion Hr; subst; split; cbn [wall sleeps]; try reflexivity; lia.
Qed.

Lemma Scripted_Writer_sleepless : Writer_sleepless Scripted.
Proof.
  intros s b w x w'. unfold io_Write, Scripted_Writer, scripted_call.
  destruct s as [| r s]; unfold ret, bind, pause; intros Hr;
    inversion Hr; subst; split; cbn [wall sleeps]; try reflexivity; lia.
Qed.

Lemma pace_sleeps_at_most_once_witness :
  bytesPerSecond {| bytesPerSecond := 1000; clock := this_instant + 1000000000 |}
  = bytesPerSecond {| bytesPerSecond := 1000; clock := 0 |} /\
  ({| wall := this_instant + 1000000000; sleeps := [1000000000] |}
   = quiet this_instant \/
   exists d, 0 < d /\
     {| wall := this_instant + 1000000000; sleeps := [1000000000] |}
     = time.slept d (quiet this_instant)) /\
  wall (quiet this_instant)
  <= wall {| wall := this_instant + 1000000000; sleeps := [1000000000] |}.
Proof.
  apply (pace_sleeps_at_most_once
           {| bytesPerSecond := 1000; clock := 0 |} 1000 (quiet this_instant)).
  vm_compute. reflexivity.
Defined.

(** Two seconds of slack, three seconds of delay: Sleep is asked for one
    second. *)
Lemma pace_requests_at_most_delay_witness :
  (clock_base {| bytesPerSecond := 1000; clock := this_instant - 2000000000 |}
              (wall (quiet this_instant))
   + time.Second * 3000 / 1000 - wall (quiet this_instant) <= 0 /\
   sleeps {| wall := this_instant + 1000000000; sleeps := [1000000000] |}
   = sleeps (quiet this_instant)) \/
  (0 < clock_base {| bytesPerSecond := 1000; clock := this_instant - 2000000000 |}
                  (wall (quiet this_instant))
       + time.Second * 3000 / 1000 - wall (quiet this_instant)
   <= time.Second * 3000 / 1000 /\
   sleeps {| wall := this_instant + 1000000000; sleeps := [1000000000] |}
   = (clock_base {| bytesPerSecond := 1000; clock := this_instant - 2000000000 |}
                 (wall (quiet this_instant))
      + time.Second * 3000 / 1000 - wall (quiet this_instant))
     :: sleeps (quiet this_instant)).
Proof.
  apply (pace_requests_at_most_delay
           {| bytesPerSecond := 1000; clock := this_instant - 2000000000 |}
           3000 (quiet this_instant)
           {| bytesPerSecond := 1000; clock := this_instant + 1000000000 |}).
  - reflexivity.
  - discriminate.
  - vm_compute. intros; discriminate.
  - right. vm_compute. intros; discriminate.
  - vm_compute. reflexivity.
Defined.

(** One byte at 2 GB/s. *)
Lemma tiny_transfer_is_free_witness :
  pace {| bytesPerSecond := 2000000000; clock := this_instant |} 1
       (quiet this_instant)
  = Returned {| bytesPerSecond := 2000000000; clock := this_instant |}
             (quiet this_instant).
Proof.
  apply (tiny_transfer_is_free
           {| bytesPerSecond := 2000000000; clock := this_instant |} 1
           (quiet this_instant)).
  - discriminate.
  - reflexivity.
  - vm_compute. intros; discriminate.
  - discriminate.
  - apply Z.le_refl.
Defined.

Lemma negative_rate_never_blocks_witness :
  pace {| bytesPerSecond := -1000; clock := this_instant |} 1000
       (quiet this_instant)
  = Returned {| bytesPerSecond := -1000; clock := this_instant - 1000000000 |}
             (quiet this_instant).
Proof.
  apply (negative_rate_never_blocks
           {| bytesPerSecond := -1000; clock := this_instant |} 1000
           (quiet this_instant)).
  - reflexivity.
  - discriminate.
  - vm_compute. intros; discriminate.
  - right. apply Z.le_refl.
Defined.

Lemma wrapper_is_transparent_witness :
  exists w1,
    io_Read [mkResponse 3 5 None] (repeat x00 8) (quiet this_instant)
    = Returned ([], repeat x00 8, (5, None)) w1 /\
    wall w1 <= wall {| wall := this_instant + 5000003; sleeps := [5000000] |} /\
    bytesPerSecond {| bytesPerSecond := 1000; clock := this_instant + 5000003 |}
    = 1000.
Proof.
  apply (proj1 wrapper_is_transparent Scripted _
           {| rPacer := {| bytesPerSecond := 1000; clock := 0 |};
              reader := [mkResponse 3 5 None] |}
           (repeat x00 8) (quiet this_instant)
           {| rPacer := {| bytesPerSecond := 1000;
                           clock := this_instant + 5000003 |};
              reader := [] |}
           (repeat x00 8) (5, None)
           {| wall := this_instant + 5000003; sleeps := [5000000] |}).
  vm_compute. reflexivity.
Defined.

Lemma reachable_states_are_settled_witness :
  settled {| bytesPerSecond := 500; clock := this_instant + 1500000007 |}
          {| wall := this_instant + 1500000007;
             sleeps := [499999998; 500000000; 500000000] |} /\
  bytesPerSecond {| bytesPerSecond := 500; clock := this_instant + 1500000007 |}
  = 500.
Proof.
  apply (proj2 reachable_states_are_settled Scripted _ Scripted_Writer_forward
           [mkResponse 5 250 None; mkResponse 0 250 None; mkResponse 2 250 None]
           500
           [mkRequest 2 (repeat x00 250); mkRequest 0 (repeat x00 250);
            mkRequest 0 (repeat x00 250)]
           (quiet this_instant)
           {| wPacer := {| bytesPerSecond := 500;
                           clock := this_instant + 1500000007 |};
              writer := [] |}
           [mkEntry 250 None (this_instant + 500000007);
            mkEntry 250 None (this_instant + 1000000007);
            mkEntry 250 None (this_instant + 1500000007)]).
  vm_compute. reflexivity.
Defined.

Lemma write_error_bytes_never_charged_witness :
  Write {| wPacer := {| bytesPerSecond := 1000; clock := this_instant |};
           writer := [mkResponse 0 5 (Some (ErrOther "short write"));
                      mkResponse 0 3 None] |}
        (repeat x00 8) (quiet this_instant)
  = Returned ({| wPacer := {| bytesPerSecond := 1000; clock := this_instant |};
                 writer := [mkResponse 0 3 None] |},
              (5, Some (ErrOther "short write")))
             (quiet this_instant) /\
  clock {| bytesPerSecond := 1000; clock := this_instant + 3000000 |}
  = this_instant + charged 1000 [mkEntry 3 None (this_instant + 3000000)].
Proof.
  destruct (write_error_bytes_never_charged
              {| wPacer := {| bytesPerSecond := 1000; clock := this_instant |};
                 writer := [mkResponse 0 5 (Some (ErrOther "short write"));
                            mkResponse 0 3 None] |}
              (repeat x00 8) (quiet this_instant)
              [mkResponse 0 3 None] 5 (ErrOther "short write")
              (quiet this_instant) eq_refl) as [Hwrite Hlater].
  split; [exact Hwrite |].
  apply (Hlater [mkRequest 0 (repeat x00 3)]
           (quiet this_instant)
           {| wPacer := {| bytesPerSecond := 1000;
                           clock := this_instant + 3000000 |};
              writer := [] |}
           [mkEntry 3 None (this_instant + 3000000)]
           {| wall := this_instant + 3000000; sleeps := [3000000] |}).
  - reflexivity.
  - reflexivity.
  - vm_compute. reflexivity.
  - repeat constructor; vm_compute; intros; discriminate.
Defined.

(** Three single bytes at 3 B/s advance the clock by 999999999 ns, three
    bytes at once by a full second. *)
Lemma split_transfers_clock_advance_witness :
  clock {| bytesPerSecond := 3; clock := this_instant + 999999999 |}
  - clock {| bytesPerSecond := 3; clock := this_instant |}
  <= time.Second * moved three_single_bytes / 3
  <= clock {| bytesPerSecond := 3; clock := this_instant + 999999999 |}
     - clock {| bytesPerSecond := 3; clock := this_instant |}
     + Z.of_nat (List.length three_single_bytes).
Proof.
  eapply (proj2 split_transfers_clock_advance Steady _
            {| wPacer := {| bytesPerSecond := 3; clock := this_instant |};
               writer := mkSteady 1 |}
            [mkRequest 0 [x00]; mkRequest 0 [x00]; mkRequest 0 [x00]]
            (quiet this_instant)
            {| wPacer := {| bytesPerSecond := 3;
                            clock := this_instant + 999999999 |};
               writer := mkSteady 1 |}
            three_single_bytes _).
  - reflexivity.
  - reflexivity.
  - vm_compute. reflexivity.
  - repeat constructor; vm_compute; intros; discriminate.
Defined.

(** Ten seconds behind: two reads of 1000 bytes at 1000 B/s go through
    without a sleep. *)
Lemma burst_on_credit_witness :
  sleeps (quiet (this_instant + 4)) = sleeps (quiet this_instant).
Proof.
  eapply (proj1 burst_on_credit Scripted _ Scripted_Reader_sleepless
            {| rPacer := {| bytesPerSecond := 1000;
                            clock := this_instant - 10000000000 |};
               reader := [mkResponse 4 1000 None; mkResponse 0 1000 None] |}
            [mkRequest 0 (repeat x00 1000); mkRequest 0 (repeat x00 1000)]
            (quiet this_instant) _
            [mkEntry 1000 None (this_instant + 4);
             mkEntry 1000 None (this_instant + 4)]
            (quiet (this_instant + 4))).
  - reflexivity.
  - reflexivity.
  - vm_compute. reflexivity.
  - repeat constructor; vm_compute; intros; discriminate.
  - vm_compute. intros; discriminate.
Defined.
